(** * Adaline: the ADAptive LInear NEuron classifier of mlxtend

    A shallow embedding of [mlxtend/classifier/adaline.py] and the
    verification of its specification.

    Layout of the development:
    - the numeric carrier (NumPy's float64) as a type class, instantiated
      with the rationals (exact arithmetic) and with binary64;
    - the NumPy operations the class calls, with their shape checks;
    - the classifier instance as a record and its methods in a
      state-and-exception monad over the pair (global random state, instance);
    - reference definitions that follow the wording of the specification;
    - the theorems. *)

From Stdlib Require Import ZArith QArith Lqa List Bool String.
From Stdlib Require Import Floats Uint63.
From stdpp Require Import base list gmap sorting.

Local Open Scope Z_scope.
Local Open Scope list_scope.

(* ===================================================================== *)
(** ** The numeric carrier *)
(* ===================================================================== *)

(** The arithmetic of the array elements.  The code computes on float64
    values; every operation the class uses is a field of this interface, so
    each theorem stated over an arbitrary [Float64 F] holds for whichever
    interpretation of the arithmetic one picks, binary64 included. *)
Class Float64 (F : Type) := {
  Fadd : F -> F -> F;
  Fsub : F -> F -> F;
  Fmul : F -> F -> F;
  Fdiv : F -> F -> F;
  Fge : F -> F -> bool;          (* the comparison [>=] *)
  Feq0 : F -> bool;              (* the test [== 0.0] *)
  of_Z : Z -> F;                 (* conversion of an integer label *)
  F0 : F;                        (* the literal 0.0 *)
  F1 : F;                        (* the literal 1.0 *)
  F2 : F;                        (* the literal 2.0 *)
  Fhalf : F;                     (* the literal 0.5 *)
  Ffifth : F                     (* the literal 0.2 *)
}.

(** What the class takes from NumPy besides arithmetic: the global random
    generator (type [G] is its state) and the matrix inverse. *)
Class NumPy (F G : Type) := {
  random_seed : option Z -> G -> G;  (* np.random.seed, on a seed it takes *)
  random_sample : G -> F * G;                   (* one draw of np.random.ranf *)
  random_permutation : G -> nat -> list nat * G;(* np.random.permutation(n) *)
  linalg_inv : list (list F) -> option (list (list F))
      (* np.linalg.inv; [None] is the LinAlgError of a singular matrix *)
}.

(* ===================================================================== *)
(** ** Exceptions and the monad *)
(* ===================================================================== *)

Inductive exn : Type :=
  | ConfigError     (* ValueError: unknown solver *)
  | ShapeError      (* ValueError: X must be a 2D array *)
  | LabelError      (* ValueError: only binary class labels {0,1} or {-1,1} *)
  | AlignError      (* ValueError raised by NumPy: shapes not aligned / broadcast *)
  | IndexError
  | AttributeError  (* an attribute read before any fit has set it *)
  | NameError       (* the local [cost] read before assignment *)
  | LinAlgError     (* singular matrix *)
  | SeedError.      (* ValueError of np.random.seed: seed out of range *)

Inductive result (A : Type) : Type :=
  | Ok (a : A)
  | Raise (e : exn).
Arguments Ok {A} a.
Arguments Raise {A} e.

(** A computation reads and writes a state [S] and either returns a value or
    raises; as in Python, what was written before the exception stays
    written. *)
Definition M (S A : Type) : Type := S -> S * result A.

Definition ret {S A} (a : A) : M S A := fun s => (s, Ok a).
Definition raise {S A} (e : exn) : M S A := fun s => (s, Raise e).
Definition bind {S A B} (c : M S A) (k : A -> M S B) : M S B :=
  fun s => match c s with
           | (s', Ok a) => k a s'
           | (s', Raise e) => (s', Raise e)
           end.
Definition lift {S A} (r : result A) : M S A := fun s => (s, r).

Declare Scope monad_scope.
Delimit Scope monad_scope with monad.
Notation "x <- c ;; k" := (bind c (fun x => k))
  (at level 100, c at next level, right associativity) : monad_scope.
Notation "c ;;; k" := (bind c (fun _ => k))
  (at level 100, right associativity) : monad_scope.

Definition res_bind {A B} (r : result A) (k : A -> result B) : result B :=
  match r with Ok a => k a | Raise e => Raise e end.

(* ===================================================================== *)
(** ** NumPy operations *)
(* ===================================================================== *)

(** The [features] argument: a rank-1 or a rank-2 array.  A rank-2 array
    carries its column count, which [X.shape[1]] reads even when there is no
    row. *)
Inductive ndarray (F : Type) : Type :=
  | Arr1 (v : list F)
  | Arr2 (ncols : nat) (rows : list (list F)).
Arguments Arr1 {F} v.
Arguments Arr2 {F} ncols rows.

(** NumPy arrays are rectangular. *)
Definition rectangular {F} (n : nat) (rows : list (list F)) : Prop :=
  Forall (fun r => length r = n) rows.

(** [np.unique] on integer labels: sort, then keep the first element of every
    run of equal values. *)
Fixpoint drop_repeats (prev : Z) (l : list Z) : list Z :=
  match l with
  | [] => []
  | b :: t => if Z.eqb b prev then drop_repeats b t else b :: drop_repeats b t
  end.

Definition np_unique (y : list Z) : list Z :=
  match merge_sort Z.le y with
  | [] => []
  | a :: t => a :: drop_repeats a t
  end.

(** Fancy indexing [a[r]] with an index array. *)
Definition take_idx {A} (a : list A) (r : list nat) : result (list A) :=
  match mapM (fun i => a !! i) r with
  | Some l => Ok l
  | None => Raise IndexError
  end.

Section NumPyOps.
Context {F : Type} `{Float64 F}.

(** [a.sum()]; the order of the additions is taken left to right. *)
Definition Fsum (l : list F) : F := fold_left Fadd l F0.

(** Inner product of two vectors of the same length. *)
Definition dot (a b : list F) : F := Fsum (zip_with Fmul a b).

(** [y - v] for two rank-1 arrays, with NumPy's broadcasting of a
    one-element array. *)
Definition np_sub (y v : list F) : result (list F) :=
  if Nat.eqb (length y) (length v) then Ok (zip_with Fsub y v)
  else match v, y with
       | [b], _ => Ok (map (fun a => Fsub a b) y)
       | _, [a] => Ok (map (fun b => Fsub a b) v)
       | _, _ => Raise AlignError
       end.

(** [a += d] in place on a rank-1 array [a]: [d] must broadcast to the shape of
    [a]. *)
Definition np_iadd (a d : list F) : result (list F) :=
  if Nat.eqb (length d) (length a) then Ok (zip_with Fadd a d)
  else match d with
       | [x] => Ok (map (fun ai => Fadd ai x) a)
       | _ => Raise AlignError
       end.

(** Column [j] of a table. *)
Definition column (j : nat) (rows : list (list F)) : list F :=
  map (fun r => nth j r F0) rows.

(** [X.T] of a table with [n] columns. *)
Definition transpose (n : nat) (rows : list (list F)) : list (list F) :=
  map (fun j => column j rows) (seq 0 n).

(** The product of a table and a vector, and of two tables ([cb] is the
    column count of [B]), without shape checks. *)
Definition mat_vec (A : list (list F)) (v : list F) : list F :=
  map (fun r => dot r v) A.
Definition mat_mul (A : list (list F)) (cb : nat) (B : list (list F))
  : list (list F) :=
  map (fun r => map (fun c => dot r c) (transpose cb B)) A.

(** [np.dot(A, v)] for a table [A] with [c] columns and a vector [v]. *)
Definition np_dot_mv (c : nat) (A : list (list F)) (v : list F)
  : result (list F) :=
  if Nat.eqb c (length v) then Ok (mat_vec A v) else Raise AlignError.

(** [np.dot(A, B)] for tables with [ca] and [cb] columns. *)
Definition np_dot_mm (ca : nat) (A : list (list F)) (cb : nat)
    (B : list (list F)) : result (list (list F)) :=
  if Nat.eqb ca (length B) then Ok (mat_mul A cb B) else Raise AlignError.

(** [np.hstack((np.ones((m, 1)), X))]. *)
Definition hstack_ones (rows : list (list F)) : list (list F) :=
  map (cons F1) rows.

End NumPyOps.

(* ===================================================================== *)
(** ** The classifier *)
(* ===================================================================== *)

Inductive Solver : Type := NormalEquation | GD | SGD.

(** The constructor's membership test of the solver name. *)
Definition parse_solver (s : string) : option Solver :=
  if String.eqb s "normal equation" then Some NormalEquation
  else if String.eqb s "gd" then Some GD
  else if String.eqb s "sgd" then Some SGD
  else None.

(** The seeds [np.random.seed] takes: [None], or an integer from 0 to
    2**32 - 1; on any other integer it raises ValueError and leaves the
    generator as it was. *)
Definition seed_accepted (seed : option Z) : bool :=
  match seed with
  | None => true
  | Some z => Z.leb 0 z && Z.ltb z (2 ^ 32)
  end.

(** An instance: the hyperparameters set by [__init__] and the attributes
    [fit] creates ([None] while an attribute does not exist yet). *)
Record Adaline (F : Type) : Type := mkAdaline {
  eta : F;                      (* learning rate *)
  epochs : nat;                 (* the bound of [range(self.epochs)] *)
  shuffle : bool;
  solver : Solver;              (* one of the three names [__init__] accepts *)
  zero_init_weight : bool;
  classes_ : option (list Z);   (* np.unique(y) of the last fit *)
  thres_ : option F;            (* decision threshold *)
  w_ : option (list F);         (* bias first, then one weight per feature *)
  cost_ : option (list F)       (* one cost per epoch *)
}.
Arguments mkAdaline {F}.
Arguments eta {F}. Arguments epochs {F}. Arguments shuffle {F}.
Arguments solver {F}. Arguments zero_init_weight {F}.
Arguments classes_ {F}. Arguments thres_ {F}. Arguments w_ {F}.
Arguments cost_ {F}.

Definition with_classes {F} (c : list Z) (a : Adaline F) : Adaline F :=
  mkAdaline (eta a) (epochs a) (shuffle a) (solver a) (zero_init_weight a)
            (Some c) (thres_ a) (w_ a) (cost_ a).
Definition with_thres {F} (t : F) (a : Adaline F) : Adaline F :=
  mkAdaline (eta a) (epochs a) (shuffle a) (solver a) (zero_init_weight a)
            (classes_ a) (Some t) (w_ a) (cost_ a).
Definition with_w {F} (w : list F) (a : Adaline F) : Adaline F :=
  mkAdaline (eta a) (epochs a) (shuffle a) (solver a) (zero_init_weight a)
            (classes_ a) (thres_ a) (Some w) (cost_ a).
Definition with_cost {F} (c : list F) (a : Adaline F) : Adaline F :=
  mkAdaline (eta a) (epochs a) (shuffle a) (solver a) (zero_init_weight a)
            (classes_ a) (thres_ a) (w_ a) (Some c).

Section Classifier.
Context {F G : Type} `{Float64 F} `{NumPy F G}.

(** The world a method runs in: NumPy's global generator and [self]. *)
Definition world : Type := (G * Adaline F)%type.
Definition Py (A : Type) : Type := M world A.

Local Open Scope monad_scope.

(** *** Attribute access *)

Definition self : Py (Adaline F) := fun s => (s, Ok (snd s)).
Definition modify (f : Adaline F -> Adaline F) : Py unit :=
  fun s => ((fst s, f (snd s)), Ok tt).
Definition attr {A} (get : Adaline F -> option A) : Py A :=
  fun s => match get (snd s) with
           | Some a => (s, Ok a)
           | None => (s, Raise AttributeError)
           end.

(** *** The constructor *)

(** [__init__]: the generator is seeded first (line 44), which raises on a
    seed out of range; then the solver name is checked. *)
Definition Adaline_init (eta0 : F) (epochs0 : nat) (solver0 : string)
    (seed : option Z) (shuffle0 zero_init : bool) (g : G)
  : G * result (Adaline F) :=
  if seed_accepted seed then
    let g' := random_seed seed g in
    match parse_solver solver0 with
    | Some s => (g', Ok (mkAdaline eta0 epochs0 shuffle0 s zero_init
                                   None None None None))
    | None => (g', Raise ConfigError)
    end
  else (g, Raise SeedError).

(** *** Random draws *)

(** [np.random.ranf(shape)]: [shape] successive draws. *)
Fixpoint ranf_from (shape : nat) (g : G) : list F * G :=
  match shape with
  | O => ([], g)
  | S k => let '(u, g1) := random_sample g in
           let '(us, g2) := ranf_from k g1 in
           (u :: us, g2)
  end.

Definition ranf (shape : nat) : Py (list F) :=
  fun s => let '(us, g') := ranf_from shape (fst s) in ((g', snd s), Ok us).

Definition permutation (n : nat) : Py (list nat) :=
  fun s => let '(r, g') := random_permutation (fst s) n in
           ((g', snd s), Ok r).

(** [_shuffle]: one permutation of [len(y)] indices applied to both arrays. *)
Definition _shuffle (rows : list (list F)) (y : list Z)
  : Py (list (list F) * list Z) :=
  r <- permutation (length y) ;;
  rows' <- lift (take_idx rows r) ;;
  y' <- lift (take_idx y r) ;;
  ret (rows', y').

(** *** Weight initialisation *)

(** The value a draw [u] is mapped to: [0.2 * u - 0.5]. *)
Definition init_value (u : F) : F := Fsub (Fmul Ffifth u) Fhalf.

Definition _init_weights (shape : nat) : Py unit :=
  a <- self ;;
  if zero_init_weight a then modify (with_w (replicate shape F0))
  else us <- ranf shape ;; modify (with_w (map init_value us)).

(** *** Net input *)

(** [np.dot(xi, w[1:]) + w[0]] for one sample. *)
Definition net_input_row (w xi : list F) : result F :=
  if Nat.eqb (length xi) (length (tail w)) then
    match w with
    | [] => Raise IndexError
    | w0 :: ws => Ok (Fadd (dot xi ws) w0)
    end
  else Raise AlignError.

(** [np.dot(X, w[1:]) + w[0]] for a table with [n] columns. *)
Definition net_input_rows (w : list F) (n : nat) (rows : list (list F))
  : result (list F) :=
  res_bind (np_dot_mv n rows (tail w)) (fun d =>
    match w with
    | [] => Raise IndexError
    | w0 :: _ => Ok (map (fun s => Fadd s w0) d)
    end).

Definition net_input1 (xi : list F) : Py F :=
  w <- attr w_ ;; lift (net_input_row w xi).

Definition net_input (n : nat) (rows : list (list F)) : Py (list F) :=
  w <- attr w_ ;; lift (net_input_rows w n rows).

Definition activation (n : nat) (rows : list (list F)) : Py (list F) :=
  net_input n rows.

(** *** In-place updates of the weight vector *)

(** [self.w_[1:] += d] *)
Definition iadd_w_tail (d : list F) : Py unit :=
  w <- attr w_ ;;
  t <- lift (np_iadd (tail w) d) ;;
  modify (with_w (match w with [] => t | w0 :: _ => w0 :: t end)).

(** [self.w_[0] += c] *)
Definition iadd_w_0 (c : F) : Py unit :=
  w <- attr w_ ;;
  match w with
  | [] => raise IndexError
  | w0 :: ws => modify (with_w (Fadd w0 c :: ws))
  end.

(** *** One epoch of each iterative solver *)

Definition gd_epoch (n : nat) (rows : list (list F)) (y : list Z) : Py F :=
  y_val <- activation n rows ;;
  errors <- lift (np_sub (map of_Z y) y_val) ;;
  a <- self ;;
  g <- lift (np_dot_mv (length rows) (transpose n rows) errors) ;;
  iadd_w_tail (map (Fmul (eta a)) g) ;;;
  a <- self ;;
  iadd_w_0 (Fmul (eta a) (Fsum errors)) ;;;
  ret (Fdiv (Fsum (map (fun e => Fmul e e) errors)) F2).

Definition sgd_sample (cost : F) (xi : list F) (yi : Z) : Py F :=
  yi_val <- net_input1 xi ;;
  let error := Fsub (of_Z yi) yi_val in
  a <- self ;;
  iadd_w_tail (map (fun x => Fmul (eta a) (Fmul x error)) xi) ;;;
  a <- self ;;
  iadd_w_0 (Fmul (eta a) error) ;;;
  ret (Fadd cost (Fdiv (Fmul error error) F2)).

(** [for xi, yi in zip(X, y)] *)
Fixpoint sgd_samples (cost : F) (samples : list (list F * Z)) : Py F :=
  match samples with
  | [] => ret cost
  | (xi, yi) :: rest =>
      cost' <- sgd_sample cost xi yi ;; sgd_samples cost' rest
  end.

Definition sgd_epoch (rows : list (list F)) (y : list Z) : Py F :=
  sgd_samples F0 (combine rows y).

Definition append_cost (c : F) : Py unit :=
  l <- attr cost_ ;; modify (with_cost (l ++ [c])).

(** [for _ in range(self.epochs)]; [X] and [y] are rebound by every
    shuffle. *)
Fixpoint epochs_loop (k n : nat) (rows : list (list F)) (y : list Z)
  : Py unit :=
  match k with
  | O => ret tt
  | S k' =>
      a <- self ;;
      Xy <- (if shuffle a then _shuffle rows y else ret (rows, y)) ;;
      a <- self ;;
      cost <- match solver a with
              | GD => gd_epoch n (fst Xy) (snd Xy)
              | SGD => sgd_epoch (fst Xy) (snd Xy)
              | NormalEquation => raise NameError
              end ;;
      append_cost cost ;;;
      epochs_loop k' n (fst Xy) (snd Xy)
  end.

(** *** The closed form *)

Definition _normal_equation (n : nat) (rows : list (list F)) (y : list Z)
  : Py (list F) :=
  let Xb := hstack_ones rows in
  let XbT := transpose (S n) Xb in
  A <- lift (np_dot_mm (length Xb) XbT (S n) Xb) ;;
  z <- lift (match linalg_inv A with
             | Some z => Ok z
             | None => Raise LinAlgError
             end) ;;
  v <- lift (np_dot_mv (length Xb) XbT (map of_Z y)) ;;
  ret (mat_vec z v).

(** *** fit and predict *)

Definition label_pair_ok (c0 c1 : Z) : bool :=
  (Z.eqb c0 (-1) || Z.eqb c0 0) && Z.eqb c1 1.

Definition fit (X : ndarray F) (y : list Z) (init_weights : bool) : Py unit :=
  match X with
  | Arr1 _ => raise ShapeError
  | Arr2 n rows =>
      modify (with_classes (np_unique y)) ;;;
      cls <- attr classes_ ;;
      match cls with
      | [c0; c1] =>
          if label_pair_ok c0 c1 then
            modify (with_thres (if Z.eqb c0 (-1) then F0 else Fhalf)) ;;;
            (if init_weights then _init_weights (1 + n) else ret tt) ;;;
            modify (with_cost []) ;;;
            a <- self ;;
            match solver a with
            | NormalEquation =>
                w <- _normal_equation n rows y ;; modify (with_w w)
            | _ => epochs_loop (epochs a) n rows y
            end
          else raise LabelError
      | _ => raise LabelError
      end
  end.

(** [np.where(self.net_input(X) >= self.thres_, classes_[1], classes_[0])]
    on a table with [n] columns. *)
Definition predict (n : nat) (rows : list (list F)) : Py (list Z) :=
  s <- net_input n rows ;;
  t <- attr thres_ ;;
  cls <- attr classes_ ;;
  match cls !! 1%nat with
  | None => raise IndexError
  | Some c1 =>
      match cls !! 0%nat with
      | None => raise IndexError
      | Some c0 => ret (map (fun v => if Fge v t then c1 else c0) s)
      end
  end.

End Classifier.

Arguments world : clear implicits.
Arguments Py : clear implicits.

(* ===================================================================== *)
(** ** Two interpretations of the carrier *)
(* ===================================================================== *)

(** A closed-form inverse for tables of at most two rows, standing for
    [np.linalg.inv] in the executable examples; a zero determinant is the
    singular case. *)
Definition inv_small {F} `{Float64 F} (A : list (list F))
  : option (list (list F)) :=
  match A with
  | [[a]] => if Feq0 a then None else Some [[Fdiv F1 a]]
  | [[a; b]; [c; d]] =>
      let det := Fsub (Fmul a d) (Fmul b c) in
      if Feq0 det then None
      else Some [[Fdiv d det; Fdiv (Fsub F0 b) det];
                 [Fdiv (Fsub F0 c) det; Fdiv a det]]
  | _ => None
  end.

(** A toy generator for the examples: the state is a counter, a draw is
    [(g mod 10) / 10] and a permutation reverses the indices. *)
Definition toy_seed (seed : option Z) (g : nat) : nat :=
  match seed with Some z => Z.to_nat z | None => g end.
Definition toy_permutation (g n : nat) : list nat * nat :=
  (rev (seq 0 n), S g).

(** *** Exact arithmetic: the rationals *)
Module ExactQ.

Definition draw (g : nat) : Q * nat :=
  (Qred (inject_Z (Z.of_nat (g mod 10)) / 10), S g).

#[export] Instance Q_float64 : Float64 Q := {|
  Fadd a b := Qred (a + b);
  Fsub a b := Qred (a - b);
  Fmul a b := Qred (a * b);
  Fdiv a b := Qred (a / b);
  Fge a b := Qle_bool b a;
  Feq0 a := Qeq_bool a 0;
  of_Z z := inject_Z z;
  F0 := 0%Q;
  F1 := 1%Q;
  F2 := 2%Q;
  Fhalf := (1 # 2)%Q;
  Ffifth := (1 # 5)%Q
|}.

#[export] Instance Q_numpy : NumPy Q nat := {|
  random_seed := toy_seed;
  random_sample := draw;
  random_permutation := toy_permutation;
  linalg_inv := inv_small
|}.

End ExactQ.

(** *** binary64: Rocq's primitive floats *)
Module Binary64.

Definition float_of_Z (z : Z) : float :=
  match z with
  | Z0 => PrimFloat.zero
  | Zpos _ => PrimFloat.of_uint63 (Uint63.of_Z z)
  | Zneg p => PrimFloat.opp (PrimFloat.of_uint63 (Uint63.of_Z (Zpos p)))
  end.

Definition draw (g : nat) : float * nat :=
  (PrimFloat.div (float_of_Z (Z.of_nat (g mod 10))) (float_of_Z 10), S g).

#[export] Instance float_float64 : Float64 float := {|
  Fadd := PrimFloat.add;
  Fsub := PrimFloat.sub;
  Fmul := PrimFloat.mul;
  Fdiv := PrimFloat.div;
  Fge a b := PrimFloat.leb b a;
  Feq0 a := PrimFloat.eqb a PrimFloat.zero;
  of_Z := float_of_Z;
  F0 := PrimFloat.zero;
  F1 := PrimFloat.one;
  F2 := PrimFloat.two;
  Fhalf := PrimFloat.div PrimFloat.one PrimFloat.two;
  Ffifth := PrimFloat.div PrimFloat.one (float_of_Z 5)
|}.

#[export] Instance float_numpy : NumPy float nat := {|
  random_seed := toy_seed;
  random_sample := draw;
  random_permutation := toy_permutation;
  linalg_inv := inv_small
|}.

End Binary64.

(* ===================================================================== *)
(** ** Label validation *)
(* ===================================================================== *)

(** The test of lines 79-81 on the array [np.unique] returned. *)
Definition labels_accepted (y : list Z) : bool :=
  match np_unique y with
  | [c0; c1] => label_pair_ok c0 c1
  | _ => false
  end.


(* ===================================================================== *)
(** ** Reference definitions *)
(* ===================================================================== *)

(** The algorithms as the specification words them: pure functions of the
    data and the weights, with no instance, no exception and no shape check.
    The theorems relate the methods above to them. *)
Section Reference.
Context {F G : Type} `{Float64 F} `{NumPy F G}.

(** The weight vector a fit starts from when it reinitialises: all zeros, or
    [0.2 * u - 0.5] for successive draws [u]. *)
Definition initial_weights (zero_init : bool) (shape : nat) (g : G)
  : list F * G :=
  if zero_init then (replicate shape F0, g)
  else let '(us, g') := ranf_from shape g in (map init_value us, g').

(** Net input of one sample: features . weights[1:] + weights[0]. *)
Definition net (w x : list F) : F := Fadd (dot x (tail w)) (hd F0 w).

(** One epoch of batch gradient descent: the new weights and the cost. *)
Definition gd_step (lr : F) (n : nat) (rows : list (list F)) (y : list Z)
    (w : list F) : list F * F :=
  let error := zip_with Fsub (map of_Z y) (map (net w) rows) in
  let grad := mat_vec (transpose n rows) error in
  (Fadd (hd F0 w) (Fmul lr (Fsum error))
     :: zip_with Fadd (tail w) (map (Fmul lr) grad),
   Fdiv (Fsum (map (fun e => Fmul e e) error)) F2).

(** Stochastic gradient descent: the error of one sample under the current
    weights, the update it causes, and one pass over the samples, which
    returns the final weights and the errors in the order they arose. *)
Definition sgd_error (w x : list F) (t : Z) : F := Fsub (of_Z t) (net w x).

Definition sgd_update (lr : F) (w x : list F) (e : F) : list F :=
  Fadd (hd F0 w) (Fmul lr e)
    :: zip_with Fadd (tail w) (map (fun xj => Fmul lr (Fmul xj e)) x).

Fixpoint sgd_pass (lr : F) (w : list F) (samples : list (list F * Z))
  : list F * list F :=
  match samples with
  | [] => (w, [])
  | (x, t) :: rest =>
      let e := sgd_error w x t in
      let '(w', es) := sgd_pass lr (sgd_update lr w x e) rest in
      (w', e :: es)
  end.

(** The sum of [e^2 / 2] over the errors of a pass, accumulated from 0.0. *)
Definition sgd_cost (es : list F) : F :=
  fold_left (fun c e => Fadd c (Fdiv (Fmul e e) F2)) es F0.

Definition sgd_step (lr : F) (rows : list (list F)) (y : list Z) (w : list F)
  : list F * F :=
  let '(w', es) := sgd_pass lr w (combine rows y) in (w', sgd_cost es).

(** Both arrays indexed by one permutation of the row indices. *)
Definition shuffled (g : G) (rows : list (list F)) (y : list Z)
  : G * list (list F) * list Z :=
  let '(r, g') := random_permutation g (length y) in
  (g', map (fun i => nth i rows []) r, map (fun i => nth i y 0) r).

(** [k] epochs of a solver [step], each on the data as the previous epoch
    left them: the generator, the weights and the cost history at the end. *)
Fixpoint train (step : list (list F) -> list Z -> list F -> list F * F)
    (shuf : bool) (k : nat) (g : G) (rows : list (list F)) (y : list Z)
    (w costs : list F) : G * list F * list F :=
  match k with
  | O => (g, w, costs)
  | S k' =>
      let '(g', rows', y') :=
        if shuf then shuffled g rows y else (g, rows, y) in
      let '(w', c) := step rows' y' w in
      train step shuf k' g' rows' y' w' (costs ++ [c])
  end.

(** The epoch of each iterative solver. *)
Definition solver_step (so : Solver) (lr : F) (n : nat)
  : list (list F) -> list Z -> list F -> list F * F :=
  match so with
  | GD => gd_step lr n
  | SGD => sgd_step lr
  | NormalEquation => fun _ _ w => (w, F0)
  end.

(** The closed form (Xb^T Xb)^-1 Xb^T y, where Xb is X with a column of 1.0
    in front; [None] when the inverse does not exist. *)
Definition closed_form (n : nat) (rows : list (list F)) (y : list Z)
  : option (list F) :=
  let Xb := map (cons F1) rows in
  let XbT := transpose (S n) Xb in
  match linalg_inv (mat_mul XbT (S n) Xb) with
  | Some z => Some (mat_vec z (mat_vec XbT (map of_Z y)))
  | None => None
  end.

(** The two halves of [fit] on accepted labels.  [start_state] is the world
    when line 95 is reached: label pair and threshold stored, weights
    reinitialised if asked, cost history emptied.  [solve] is the dispatch of
    lines 95-120. *)
Definition start_state (init_weights : bool) (n : nat) (y : list Z)
    (s : world F G) : world F G :=
  let a1 := with_thres (if Z.eqb (hd 0 (np_unique y)) (-1) then F0 else Fhalf)
                       (with_classes (np_unique y) (snd s)) in
  let '(w', g') :=
    if init_weights
    then let '(w, g') := initial_weights (zero_init_weight a1) (1 + n) (fst s)
         in (Some w, g')
    else (w_ a1, fst s) in
  (g', mkAdaline (eta a1) (epochs a1) (shuffle a1) (solver a1)
                 (zero_init_weight a1) (classes_ a1) (thres_ a1) w' (Some [])).

Definition solve (n : nat) (rows : list (list F)) (y : list Z) : Py F G unit :=
  (a <- self ;;
   match solver a with
   | NormalEquation => w <- _normal_equation n rows y ;; modify (with_w w)
   | _ => epochs_loop (epochs a) n rows y
   end)%monad.

(** *** What NumPy guarantees *)

(** A permutation of [n] is a rearrangement of the indices below [n], and the
    inverse of a square table has as many rows. *)
Class NumPyLaws : Prop := {
  permutation_perm : forall g n, fst (random_permutation g n) ≡ₚ seq 0 n;
  inv_rows : forall A z, linalg_inv A = Some z -> length z = length A
}.

(** *** Exact arithmetic *)

(** A reading of the carrier in the rationals under which the two operations
    of the weight initialisation are exact.  The rationals themselves satisfy
    it; binary64, which rounds, does not. *)
Class ExactArith (toQ : F -> Q) : Prop := {
  toQ_mul : forall a b, Qeq (toQ (Fmul a b)) (toQ a * toQ b);
  toQ_sub : forall a b, Qeq (toQ (Fsub a b)) (toQ a - toQ b);
  toQ_fifth : Qeq (toQ Ffifth) (1 # 5);
  toQ_half : Qeq (toQ Fhalf) (1 # 2)
}.

(** *** Frames *)

(** What no solver touches: the hyperparameters, the label pair and the
    threshold. *)
Definition same_config (a a' : Adaline F) : Prop :=
  eta a' = eta a /\ epochs a' = epochs a /\ shuffle a' = shuffle a /\
  solver a' = solver a /\ zero_init_weight a' = zero_init_weight a /\
  classes_ a' = classes_ a /\ thres_ a' = thres_ a.

(** The weight vector exists and has the same length in both, or in
    neither. *)
Definition same_shape (a a' : Adaline F) : Prop :=
  length <$> w_ a' = length <$> w_ a.

Definition stable (s s' : world F G) : Prop :=
  same_config (snd s) (snd s') /\ cost_ (snd s') = cost_ (snd s) /\
  same_shape (snd s) (snd s').

(** A computation that keeps all of this and never raises the label-domain
    error. *)
Definition quiet {A} (c : Py F G A) : Prop :=
  forall s, stable s (fst (c s)) /\ snd (c s) <> Raise LabelError.

End Reference.

(* ===================================================================== *)
(** ** Example data *)
(* ===================================================================== *)

Module Examples.
Import ExactQ.

(** Four samples of one feature, separable at x = 1.5. *)
Definition X4 : list (list Q) := [[0]; [1]; [2]; [3]]%Q.
Definition y4 : list Z := [-1; -1; 1; 1].

(** Four samples of two features with labels in {0,1}. *)
Definition X42 : list (list Q) := [[0; 0]; [0; 1]; [3; 3]; [4; 3]]%Q.
Definition y42 : list Z := [0; 0; 1; 1].

(** Fresh instances, as [__init__] returns them. *)
Definition fresh (so : Solver) (ep : nat) (shuf zi : bool) : Adaline Q :=
  mkAdaline (1 # 100)%Q ep shuf so zi None None None None.

(** The world after a first gradient-descent fit on [X42]. *)
Definition fitted42 : world Q nat :=
  fst (fit (Arr2 2 X42) y42 true (0%nat, fresh GD 2 false true)).

(** An instance built for zero epochs, fitted once on two features. *)
Definition idle42 : world Q nat :=
  fst (fit (Arr2 2 X42) y42 true (0%nat, fresh GD 0 false true)).

(** The world after a normal-equation fit on [X4]. *)
Definition solved4 : world Q nat :=
  fst (fit (Arr2 1 X4) y4 true (0%nat, fresh NormalEquation 5 false false)).

(** A singular design: the single feature is constant. *)
Definition Xconst : list (list Q) := [[1]; [1]; [1]; [1]]%Q.

(** The same data in binary64. *)
Definition X4f : list (list float) := [[0]; [1]; [2]; [3]]%float.
Definition X42f : list (list float) :=
  [[0; 0]; [0; 1]; [3; 3]; [4; 3]]%float.
Definition freshf (so : Solver) (ep : nat) (shuf zi : bool)
  : Adaline float :=
  mkAdaline (PrimFloat.div PrimFloat.one (Binary64.float_of_Z 100))
            ep shuf so zi None None None None.

End Examples.

(* ===================================================================== *)
(** ** Further vocabulary *)
(* ===================================================================== *)

Section MoreFrames.
Context {F G : Type} `{Float64 F} `{NumPy F G}.

(** The five values [__init__] stores. *)
Definition hyperparameters (a : Adaline F)
  : F * nat * bool * Solver * bool :=
  (eta a, epochs a, shuffle a, solver a, zero_init_weight a).

(** The errors the arithmetic and the attribute reads of an epoch raise. *)
Definition epoch_error (e : exn) : Prop :=
  e = AttributeError \/ e = AlignError \/ e = IndexError.

(** A computation that leaves the generator alone and fails with such an
    error only. *)
Definition tame {A} (c : Py F G A) : Prop :=
  forall s, fst (fst (c s)) = fst s /\
            forall e, snd (c s) = Raise e -> epoch_error e.

(** The error of the first use of weights that are absent or of the wrong
    length, on a table with [n] columns: AttributeError without weights;
    IndexError from [w_[0]] when the vector is empty and the table has no
    column, so that the dot product goes through; an alignment error from
    the dot product otherwise. *)
Definition first_use_error (n : nat) (ow : option (list F)) : exn :=
  match ow with
  | None => AttributeError
  | Some [] => if Nat.eqb n 0 then IndexError else AlignError
  | Some _ => AlignError
  end.

End MoreFrames.

(** Further example data. *)
Module MoreExamples.
Import ExactQ Examples.

(** The world left by a rejected fit on the fitted instance. *)
Definition rejected42 : world Q nat :=
  fst (fit (Arr2 2 X42) [1; 2; 1; 2] true fitted42).

(** Three targets for the four rows of [X42]. *)
Definition y3 : list Z := [0; 1; 1].

(** An instance that shuffles. *)
Definition shuffling : world Q nat := (0%nat, fresh SGD 2 true true).

End MoreExamples.
(* ===================================================================== *)
(** * Theory *)
(* ===================================================================== *)

(** ** [np.unique] and the accepted label sets *)

Lemma drop_repeats_Sorted t : forall a,
  Sorted Z.le (a :: t) -> Sorted Z.lt (a :: drop_repeats a t).
Proof.
  induction t as [|b t IH]; intros a Hs; cbn.
  - repeat constructor.
  - apply Sorted_inv in Hs as [Hs Hhd]. apply HdRel_inv in Hhd.
    specialize (IH b Hs).
    destruct (Z.eqb_spec b a) as [->|Hne]; [exact IH|].
    constructor; [exact IH|]. constructor. lia.
Qed.

Lemma drop_repeats_elem t : forall a x,
  x ∈ a :: drop_repeats a t <-> x ∈ a :: t.
Proof.
  induction t as [|b t IH]; intros a x; cbn; [reflexivity|].
  destruct (Z.eqb_spec b a) as [->|Hne].
  - rewrite IH, !elem_of_cons. tauto.
  - rewrite !(elem_of_cons _ x a). rewrite IH. reflexivity.
Qed.

Lemma np_unique_Sorted y : StronglySorted Z.lt (np_unique y).
Proof.
  unfold np_unique.
  pose proof (Sorted_merge_sort Z.le y) as Hs.
  destruct (merge_sort Z.le y) as [|a t]; [constructor|].
  apply Sorted_StronglySorted; [intros ???; lia|].
  by apply drop_repeats_Sorted.
Qed.

Lemma np_unique_elem y x : x ∈ np_unique y <-> x ∈ y.
Proof.
  unfold np_unique.
  pose proof (merge_sort_Permutation Z.le y) as Hp.
  transitivity (x ∈ merge_sort Z.le y); [|by rewrite Hp].
  destruct (merge_sort Z.le y) as [|a t]; [reflexivity|].
  apply drop_repeats_elem.
Qed.

Lemma lt_sorted_NoDup l : StronglySorted Z.lt l -> NoDup l.
Proof.
  induction 1 as [|a l Hs IH Hall]; constructor; [|exact IH].
  intros Hin. rewrite Forall_forall in Hall. specialize (Hall _ Hin). lia.
Qed.

Lemma elem_of_pair (x a b : Z) :
  x ∈ [a; b] <-> x ∈ ({[a; b]} : gset Z).
Proof.
  rewrite !elem_of_cons, elem_of_nil, elem_of_union, !elem_of_singleton.
  tauto.
Qed.

Lemma np_unique_pair y a b :
  np_unique y = [a; b] <-> a < b /\ list_to_set y = ({[a; b]} : gset Z).
Proof.
  split.
  - intros E. split.
    + pose proof (np_unique_Sorted y) as Hs. rewrite E in Hs.
      apply StronglySorted_inv in Hs as [_ Hall].
      apply Forall_inv in Hall. exact Hall.
    + apply set_eq. intros x. rewrite elem_of_list_to_set.
      rewrite <- np_unique_elem, E. apply elem_of_pair.
  - intros [Hlt Hset].
    apply (StronglySorted_unique_strong Z.lt).
    + intros; lia.
    + apply np_unique_Sorted.
    + repeat constructor; lia.
    + apply NoDup_Permutation.
      * apply lt_sorted_NoDup, np_unique_Sorted.
      * apply lt_sorted_NoDup. repeat constructor; lia.
      * intros x. rewrite np_unique_elem.
        rewrite <- (elem_of_list_to_set (C:=gset Z)), Hset.
        symmetry. apply elem_of_pair.
Qed.

Lemma labels_accepted_inv y :
  labels_accepted y = true ->
  exists c0, np_unique y = [c0; 1] /\ (c0 = -1 \/ c0 = 0).
Proof.
  unfold labels_accepted, label_pair_ok.
  destruct (np_unique y) as [|c0 [|c1 [|? ?]]]; try discriminate.
  intros Hok. apply andb_true_iff in Hok as [H0 H1].
  apply Z.eqb_eq in H1 as ->. exists c0. split; [reflexivity|].
  apply orb_true_iff in H0 as [E|E]; apply Z.eqb_eq in E; auto.
Qed.

Lemma labels_accepted_sets y :
  labels_accepted y = true <->
  list_to_set y = ({[0; 1]} : gset Z) \/ list_to_set y = ({[-1; 1]} : gset Z).
Proof.
  split.
  - intros Hacc. apply labels_accepted_inv in Hacc as (c0 & E & [-> | ->]);
      apply np_unique_pair in E as [_ E]; auto.
  - intros [E|E]; unfold labels_accepted.
    + assert (np_unique y = [0; 1]) as -> by (apply np_unique_pair; split; [lia|done]).
      reflexivity.
    + assert (np_unique y = [-1; 1]) as -> by (apply np_unique_pair; split; [lia|done]).
      reflexivity.
Qed.

(* ===================================================================== *)
(** ** Frames: what the solvers leave alone *)
(* ===================================================================== *)

Section Frames.
Context {F G : Type} `{Float64 F} `{NumPy F G}.
Local Open Scope monad_scope.

Lemma same_config_refl (a : Adaline F) : same_config a a.
Proof. repeat split. Qed.

Lemma same_config_trans (a b c : Adaline F) :
  same_config a b -> same_config b c -> same_config a c.
Proof.
  unfold same_config. intros (?&?&?&?&?&?&?) (?&?&?&?&?&?&?).
  repeat split; congruence.
Qed.

Lemma stable_refl (s : world F G) : stable s s.
Proof. repeat split. Qed.

Lemma stable_trans (s1 s2 s3 : world F G) :
  stable s1 s2 -> stable s2 s3 -> stable s1 s3.
Proof.
  intros (C1 & K1 & S1) (C2 & K2 & S2). split; [|split].
  - eapply same_config_trans; eassumption.
  - congruence.
  - unfold same_shape in *. congruence.
Qed.

Lemma quiet_ret {A} (a : A) : quiet (F:=F) (G:=G) (ret a).
Proof. intros s. split; [apply stable_refl|discriminate]. Qed.

Lemma quiet_lift {A} (r : result A) :
  r <> Raise LabelError -> quiet (F:=F) (G:=G) (lift r).
Proof. intros Hr s. split; [apply stable_refl|exact Hr]. Qed.

Lemma quiet_raise {A} (e : exn) :
  e <> LabelError -> quiet (F:=F) (G:=G) (A:=A) (raise e).
Proof. intros He s. split; [apply stable_refl|cbn; congruence]. Qed.

Lemma quiet_bind {A B} (c : Py F G A) (k : A -> Py F G B) :
  quiet c -> (forall a, quiet (k a)) -> quiet (bind c k).
Proof.
  intros Hc Hk s. unfold bind. specialize (Hc s).
  destruct (c s) as [s1 [a|e]]; cbn in *;
    [|destruct Hc as [Hst He]; split; [exact Hst|congruence]].
  destruct Hc as [Hst _]. destruct (Hk a s1) as [Hst' Hr].
  split; [eapply stable_trans; eassumption|exact Hr].
Qed.

Lemma quiet_self : quiet (F:=F) (G:=G) self.
Proof. intros s. split; [apply stable_refl|discriminate]. Qed.

Lemma quiet_attr {A} (get : Adaline F -> option A) :
  quiet (G:=G) (attr get).
Proof.
  intros s. unfold attr. destruct (get (snd s)); cbn;
    (split; [apply stable_refl|discriminate]).
Qed.

Lemma quiet_permutation n : quiet (F:=F) (G:=G) (permutation n).
Proof.
  intros [g a]. unfold permutation. cbn.
  destruct (random_permutation g n) as [r g']. cbn.
  split; [repeat split|discriminate].
Qed.

(** NumPy's own errors are never the label-domain error. *)
Lemma np_sub_benign (y v : list F) : np_sub y v <> Raise LabelError.
Proof. unfold np_sub. repeat case_match; discriminate. Qed.

Lemma np_iadd_benign (a d : list F) : np_iadd a d <> Raise LabelError.
Proof. unfold np_iadd. repeat case_match; discriminate. Qed.

Lemma np_dot_mv_benign c (A : list (list F)) v :
  np_dot_mv c A v <> Raise LabelError.
Proof. unfold np_dot_mv. case_match; discriminate. Qed.

Lemma take_idx_benign {A} (l : list A) r : take_idx l r <> Raise LabelError.
Proof. unfold take_idx. case_match; discriminate. Qed.

Lemma net_input_row_benign (w xi : list F) :
  net_input_row w xi <> Raise LabelError.
Proof.
  unfold net_input_row. destruct (length xi =? length (tail w))%nat;
    [destruct w|]; discriminate.
Qed.

Lemma net_input_rows_benign (w : list F) n rows :
  net_input_rows w n rows <> Raise LabelError.
Proof.
  unfold net_input_rows, res_bind, np_dot_mv.
  destruct (n =? length (tail w))%nat; [destruct w|]; discriminate.
Qed.

Lemma np_iadd_length (a d t : list F) :
  np_iadd a d = Ok t -> length t = length a.
Proof.
  unfold np_iadd. destruct (Nat.eqb_spec (length d) (length a)) as [E|E].
  - intros [= <-]. rewrite length_zip_with. lia.
  - destruct d as [|x [|? ?]]; try discriminate.
    intros [= <-]. apply length_map.
Qed.

Lemma quiet_iadd_w_tail d : quiet (G:=G) (iadd_w_tail d).
Proof.
  intros [g a]. unfold iadd_w_tail, bind, attr, lift, modify. cbn.
  destruct (w_ a) as [w|] eqn:Ew; cbn;
    [|split; [apply stable_refl|discriminate]].
  destruct (np_iadd (tail w) d) as [t|e] eqn:Et; cbn.
  - split; [|discriminate]. split; [repeat split|]. split; [reflexivity|].
    unfold same_shape. cbn. rewrite Ew. cbn. f_equal.
    apply np_iadd_length in Et. destruct w; cbn in *; lia.
  - split; [apply stable_refl|].
    intros [= ->]. by apply (np_iadd_benign (tail w) d).
Qed.

Lemma quiet_iadd_w_0 c : quiet (G:=G) (iadd_w_0 c).
Proof.
  intros [g a]. unfold iadd_w_0, bind, attr, raise, modify. cbn.
  destruct (w_ a) as [[|w0 ws]|] eqn:Ew; cbn;
    try (split; [apply stable_refl|discriminate]).
  split; [|discriminate]. split; [repeat split|]. split; [reflexivity|].
  unfold same_shape. cbn. by rewrite Ew.
Qed.

Lemma quiet_net_input n rows : quiet (G:=G) (net_input n rows).
Proof.
  apply quiet_bind; [apply quiet_attr|].
  intros w. apply quiet_lift, net_input_rows_benign.
Qed.

Lemma quiet_net_input1 xi : quiet (G:=G) (net_input1 xi).
Proof.
  apply quiet_bind; [apply quiet_attr|].
  intros w. apply quiet_lift, net_input_row_benign.
Qed.

Lemma quiet_gd_epoch n rows y : quiet (G:=G) (gd_epoch n rows y).
Proof.
  unfold gd_epoch, activation.
  apply quiet_bind; [apply quiet_net_input|intros y_val].
  apply quiet_bind; [apply quiet_lift, np_sub_benign|intros errors].
  apply quiet_bind; [apply quiet_self|intros a].
  apply quiet_bind; [apply quiet_lift, np_dot_mv_benign|intros g].
  apply quiet_bind; [apply quiet_iadd_w_tail|intros _].
  apply quiet_bind; [apply quiet_self|intros a'].
  apply quiet_bind; [apply quiet_iadd_w_0|intros _].
  apply quiet_ret.
Qed.

Lemma quiet_sgd_sample cost xi yi : quiet (G:=G) (sgd_sample cost xi yi).
Proof.
  unfold sgd_sample.
  apply quiet_bind; [apply quiet_net_input1|intros yi_val].
  apply quiet_bind; [apply quiet_self|intros a].
  apply quiet_bind; [apply quiet_iadd_w_tail|intros _].
  apply quiet_bind; [apply quiet_self|intros a'].
  apply quiet_bind; [apply quiet_iadd_w_0|intros _].
  apply quiet_ret.
Qed.

Lemma quiet_sgd_samples samples :
  forall cost, quiet (G:=G) (sgd_samples cost samples).
Proof.
  induction samples as [|[xi yi] rest IH]; intros cost; cbn.
  - apply quiet_ret.
  - apply quiet_bind; [apply quiet_sgd_sample|intros cost'; apply IH].
Qed.

Lemma quiet_shuffle rows y : quiet (G:=G) (_shuffle rows y).
Proof.
  unfold _shuffle.
  apply quiet_bind; [apply quiet_permutation|intros r].
  apply quiet_bind; [apply quiet_lift, take_idx_benign|intros rows'].
  apply quiet_bind; [apply quiet_lift, take_idx_benign|intros y'].
  apply quiet_ret.
Qed.

End Frames.

(* ===================================================================== *)
(** ** The structure of a fit *)
(* ===================================================================== *)

Section FitStructure.
Context {F G : Type} `{Float64 F} `{NumPy F G}.
Local Open Scope monad_scope.

Lemma _init_weights_run shape (g : G) (a : Adaline F) :
  _init_weights shape (g, a) =
  let '(w, g') := initial_weights (zero_init_weight a) shape g in
  ((g', with_w w a), Ok tt).
Proof.
  unfold _init_weights, initial_weights, bind, self, modify, ranf. cbn.
  destruct (zero_init_weight a); cbn; [reflexivity|].
  destruct (ranf_from shape g) as [us g']. reflexivity.
Qed.

Lemma ranf_from_length shape : forall g : G,
  length (fst (ranf_from (F:=F) shape g)) = shape.
Proof.
  induction shape as [|k IH]; intros g; cbn; [reflexivity|].
  destruct (random_sample g) as [u g1]. specialize (IH g1).
  destruct (ranf_from k g1) as [us g2]. cbn in *. by rewrite IH.
Qed.

Lemma initial_weights_length zi shape (g : G) :
  length (fst (initial_weights (F:=F) zi shape g)) = shape.
Proof.
  unfold initial_weights. destruct zi; cbn; [apply length_replicate|].
  pose proof (ranf_from_length shape g) as Hl.
  destruct (ranf_from shape g) as [us g']. cbn in *.
  by rewrite length_map.
Qed.

(** Rejected labels: the only thing written is the label array. *)
Lemma fit_rejected n rows y iw (s : world F G) :
  labels_accepted y = false ->
  fit (Arr2 n rows) y iw s =
  ((fst s, with_classes (np_unique y) (snd s)), Raise LabelError).
Proof.
  unfold labels_accepted, fit, bind, modify, attr, raise. cbn.
  destruct (np_unique y) as [|c0 [|c1 [|? ?]]]; try reflexivity.
  by intros ->.
Qed.

(** Accepted labels: the start state, then the solver. *)
Lemma fit_accepted n rows y iw (s : world F G) :
  labels_accepted y = true ->
  fit (Arr2 n rows) y iw s = solve n rows y (start_state iw n y s).
Proof.
  intros Hacc. destruct s as [g [lr ep sh so zi cl th w co]].
  unfold labels_accepted in Hacc.
  unfold fit, solve, start_state, bind, modify, attr, self, ret. cbn.
  destruct (np_unique y) as [|c0 [|c1 [|? ?]]]; try discriminate.
  rewrite Hacc. cbn.
  destruct iw; cbn; [|reflexivity].
  unfold _init_weights, initial_weights, bind, self, modify, ranf. cbn.
  destruct zi; cbn; [reflexivity|].
  destruct (random_sample g) as [u g1].
  destruct (ranf_from n g1) as [us g2]. reflexivity.
Qed.

(** The closed form never reads or writes the instance. *)
Lemma _normal_equation_run n rows y (s : world F G) :
  _normal_equation n rows y s =
  (s, match closed_form (G:=G) n rows y with
      | None => Raise LinAlgError
      | Some w =>
          if Nat.eqb (length rows) (length y) then Ok w else Raise AlignError
      end).
Proof.
  unfold _normal_equation, closed_form, bind, lift, ret, np_dot_mm, np_dot_mv.
  rewrite Nat.eqb_refl. unfold hstack_ones.
  destruct (linalg_inv _) as [z|]; [|reflexivity].
  rewrite !length_map.
  destruct (length rows =? length y)%nat; reflexivity.
Qed.

End FitStructure.

(* ===================================================================== *)
(** ** The epoch loop and the cost history *)
(* ===================================================================== *)

Section EpochLoop.
Context {F G : Type} `{Float64 F} `{NumPy F G}.
Local Open Scope monad_scope.

Lemma append_cost_run c (g : G) (a : Adaline F) :
  append_cost c (g, a) =
  match cost_ a with
  | Some l => ((g, with_cost (l ++ [c]) a), Ok tt)
  | None => ((g, a), Raise AttributeError)
  end.
Proof.
  unfold append_cost, bind, attr, modify. cbn.
  destruct (cost_ a); reflexivity.
Qed.

(** One epoch up to the computation of its cost. *)
Lemma quiet_epoch_cost n (Xy : list (list F) * list Z) :
  quiet (G:=G)
    (a <- self ;;
     match solver a with
     | GD => gd_epoch n (fst Xy) (snd Xy)
     | SGD => sgd_epoch (fst Xy) (snd Xy)
     | NormalEquation => raise NameError
     end).
Proof.
  apply quiet_bind; [apply quiet_self|intros a].
  destruct (solver a).
  - by apply quiet_raise.
  - apply quiet_gd_epoch.
  - apply quiet_sgd_samples.
Qed.

Lemma quiet_epoch_data rows y :
  quiet (G:=G)
    (a <- self ;; if shuffle a then _shuffle rows y else ret (rows, y)).
Proof.
  apply quiet_bind; [apply quiet_self|intros a].
  destruct (shuffle a); [apply quiet_shuffle|apply quiet_ret].
Qed.

(** The loop keeps the configuration and the shape of the weights, never
    raises the label-domain error, and appends at most [k] costs to the
    history, exactly [k] when it completes. *)
Lemma epochs_loop_frame k : forall n rows y (s s' : world F G) r,
  epochs_loop k n rows y s = (s', r) ->
  same_config (snd s) (snd s') /\
  same_shape (snd s) (snd s') /\
  r <> Raise LabelError /\
  forall l, cost_ (snd s) = Some l ->
    exists l', cost_ (snd s') = Some (l ++ l') /\
               (length l' <= k)%nat /\
               (r = Ok tt -> length l' = k).
Proof.
  induction k as [|k IH]; intros n rows y s s' r E.
  { cbn in E. injection E as <- <-. repeat split; try discriminate.
    intros l Hl. exists []. rewrite app_nil_r. auto. }
  change (epochs_loop (S k) n rows y) with
    (Xy <- (a <- self ;; if shuffle a then _shuffle rows y else ret (rows, y)) ;;
     cost <- (a <- self ;;
              match solver a with
              | GD => gd_epoch n (fst Xy) (snd Xy)
              | SGD => sgd_epoch (fst Xy) (snd Xy)
              | NormalEquation => raise NameError
              end) ;;
     append_cost cost ;;; epochs_loop k n (fst Xy) (snd Xy)) in E.
  unfold bind at 1 in E.
  destruct (quiet_epoch_data rows y s) as [(C1 & K1 & S1) R1].
  destruct ((a <- self ;; if shuffle a then _shuffle rows y else ret (rows, y)) s)
    as [s1 [Xy|e]]; cbn in C1, K1, S1, R1.
  2:{ injection E as <- <-. split; [exact C1|]. split; [exact S1|].
      split; [intros [= ->]; by apply R1|].
      intros l Hl. exists []. rewrite app_nil_r, K1. split; [done|].
      split; [cbn; lia|discriminate]. }
  unfold bind at 1 in E.
  destruct (quiet_epoch_cost n Xy s1) as [(C2 & K2 & S2) R2].
  destruct ((a <- self ;;
             match solver a with
             | GD => gd_epoch n (fst Xy) (snd Xy)
             | SGD => sgd_epoch (fst Xy) (snd Xy)
             | NormalEquation => raise NameError
             end) s1) as [s2 [cost|e]]; cbn in C2, K2, S2, R2.
  2:{ injection E as <- <-.
      split; [eapply same_config_trans; eassumption|].
      split; [unfold same_shape in *; congruence|].
      split; [intros [= ->]; by apply R2|].
      intros l Hl. exists []. rewrite app_nil_r, K2, K1. split; [done|].
      split; [cbn; lia|discriminate]. }
  unfold bind at 1 in E. destruct s2 as [g2 a2]. rewrite append_cost_run in E.
  cbn in C2, K2, S2.
  destruct (cost_ a2) as [l2|] eqn:El2.
  2:{ injection E as <- <-. cbn.
      split; [eapply same_config_trans; eassumption|].
      split; [unfold same_shape in *; congruence|].
      split; [discriminate|].
      intros l Hl. congruence. }
  apply IH in E. destruct E as (C3 & S3 & R3 & L3). cbn in C3, S3.
  split; [|split; [|split]].
  - eapply same_config_trans; [exact C1|].
    eapply same_config_trans; [exact C2|]. exact C3.
  - unfold same_shape in *. cbn in *. congruence.
  - exact R3.
  - intros l Hl. assert (l2 = l) as -> by congruence.
    destruct (L3 (l ++ [cost]) eq_refl) as (l' & E' & Hle & Hok).
    exists (cost :: l'). rewrite E', <- app_assoc. cbn.
    split; [done|]. split; [lia|]. intros Hr. f_equal. auto.
Qed.

(** The dispatch, started on an empty history. *)
Lemma solve_frame n rows y (s s' : world F G) r :
  cost_ (snd s) = Some [] ->
  solve n rows y s = (s', r) ->
  same_config (snd s) (snd s') /\
  r <> Raise LabelError /\
  exists l, cost_ (snd s') = Some l /\
    (length l <= match solver (snd s) with
                 | NormalEquation => 0 | _ => epochs (snd s) end)%nat /\
    (r = Ok tt ->
     length l = match solver (snd s) with
                | NormalEquation => 0%nat | _ => epochs (snd s) end).
Proof.
  intros Hc E. destruct s as [g a]. cbn in Hc.
  assert (Hloop : epochs_loop (epochs a) n rows y (g, a) = (s', r) ->
    same_config a (snd s') /\ r <> Raise LabelError /\
    exists l, cost_ (snd s') = Some l /\
      (length l <= epochs a)%nat /\ (r = Ok tt -> length l = epochs a)).
  { intros E'. apply epochs_loop_frame in E' as (C & _ & R & L).
    destruct (L [] Hc) as (l' & El & Hle & Hok).
    split; [exact C|]. split; [exact R|]. exists l'. auto. }
  unfold solve, bind at 1, self in E. cbn in E |- *.
  destruct (solver a) eqn:Es; try (by apply Hloop).
  unfold bind in E. rewrite _normal_equation_run in E.
  destruct (closed_form n rows y) as [w|]; cbn in E.
  - destruct (length rows =? length y)%nat; cbn in E; injection E as <- <-.
    + split; [repeat split|]. split; [discriminate|].
      exists []. auto.
    + split; [repeat split|]. split; [discriminate|].
      exists []. split; [done|]. split; [done|discriminate].
  - injection E as <- <-. split; [repeat split|]. split; [discriminate|].
    exists []. split; [done|]. split; [done|discriminate].
Qed.

Lemma start_state_cost iw n y (s : world F G) :
  cost_ (snd (start_state iw n y s)) = Some [].
Proof.
  unfold start_state. destruct iw; cbn.
  - destruct (initial_weights _ _ _). reflexivity.
  - reflexivity.
Qed.

Lemma start_state_config iw n y (s : world F G) :
  let a' := snd (start_state iw n y s) in
  eta a' = eta (snd s) /\ epochs a' = epochs (snd s) /\
  shuffle a' = shuffle (snd s) /\ solver a' = solver (snd s) /\
  zero_init_weight a' = zero_init_weight (snd s) /\
  classes_ a' = Some (np_unique y) /\
  thres_ a' = Some (if Z.eqb (hd 0 (np_unique y)) (-1) then F0 else Fhalf).
Proof.
  unfold start_state. destruct iw; cbn.
  - destruct (initial_weights _ _ _). cbn. repeat split.
  - repeat split.
Qed.

End EpochLoop.

(* ===================================================================== *)
(** ** Label validation and what a rejected call leaves behind *)
(* ===================================================================== *)

Section Validation.
Context {F G : Type} `{Float64 F} `{NumPy F G}.

Lemma fit_accepted_frame n rows y iw (s s' : world F G) r :
  labels_accepted y = true ->
  fit (Arr2 n rows) y iw s = (s', r) ->
  r <> Raise LabelError /\
  classes_ (snd s') = Some (np_unique y) /\
  thres_ (snd s') =
    Some (if Z.eqb (hd 0 (np_unique y)) (-1) then F0 else Fhalf) /\
  solver (snd s') = solver (snd s) /\ epochs (snd s') = epochs (snd s) /\
  eta (snd s') = eta (snd s) /\ shuffle (snd s') = shuffle (snd s) /\
  zero_init_weight (snd s') = zero_init_weight (snd s) /\
  exists l, cost_ (snd s') = Some l /\
    (length l <= match solver (snd s) with
                 | NormalEquation => 0 | _ => epochs (snd s) end)%nat /\
    (r = Ok tt ->
     length l = match solver (snd s) with
                | NormalEquation => 0%nat | _ => epochs (snd s) end).
Proof.
  intros Hacc E. rewrite (fit_accepted _ _ _ _ _ Hacc) in E.
  apply solve_frame in E; [|apply start_state_cost].
  destruct E as ((Ce & Cp & Csh & Cso & Cz & Ccl & Cth) & R & l & El & Hle & Hok).
  destruct (start_state_config iw n y s) as (Se & Sp & Ssh & Sso & Sz & Scl & Sth).
  cbn in *. rewrite Sso, Sp in *.
  repeat split; try congruence.
  exists l. auto.
Qed.

(** C5.  On rank-2 features, [fit] raises the label-domain error exactly when
    the set of distinct target values is neither {0,1} nor {-1,1}. *)
Theorem fit_label_error_iff n rows y iw (s : world F G) :
  snd (fit (Arr2 n rows) y iw s) = Raise LabelError <->
  list_to_set y <> ({[0; 1]} : gset Z) /\
  list_to_set y <> ({[-1; 1]} : gset Z).
Proof.
  destruct (labels_accepted y) eqn:Hacc.
  - pose proof Hacc as Hsets. apply labels_accepted_sets in Hsets.
    destruct (fit (Arr2 n rows) y iw s) as [s' r] eqn:E.
    apply (fit_accepted_frame _ _ _ _ _ _ _ Hacc) in E as [R _]. cbn.
    split; [intros; contradiction|]. intros [N1 N2]. destruct Hsets; contradiction.
  - rewrite (fit_rejected _ _ _ _ _ Hacc). cbn.
    split; [|reflexivity]. intros _.
    split; intros Hs;
      (assert (labels_accepted y = true) by (apply labels_accepted_sets; auto));
      congruence.
Qed.

(** C8, as the code has it.  When [fit] raises the label-domain error, the
    weight vector, the cost history, the threshold, the hyperparameters and
    the random generator are exactly as before the call; the stored label
    array alone has been overwritten, with the distinct values of the
    rejected targets. *)
Theorem fit_label_error_frame X y iw (s : world F G) :
  snd (fit X y iw s) = Raise LabelError ->
  fst (fst (fit X y iw s)) = fst s /\
  w_ (snd (fst (fit X y iw s))) = w_ (snd s) /\
  cost_ (snd (fst (fit X y iw s))) = cost_ (snd s) /\
  thres_ (snd (fst (fit X y iw s))) = thres_ (snd s) /\
  eta (snd (fst (fit X y iw s))) = eta (snd s) /\
  epochs (snd (fst (fit X y iw s))) = epochs (snd s) /\
  shuffle (snd (fst (fit X y iw s))) = shuffle (snd s) /\
  solver (snd (fst (fit X y iw s))) = solver (snd s) /\
  zero_init_weight (snd (fst (fit X y iw s))) = zero_init_weight (snd s) /\
  classes_ (snd (fst (fit X y iw s))) = Some (np_unique y).
Proof.
  destruct X as [v|n rows]; [discriminate|].
  destruct (labels_accepted y) eqn:Hacc.
  - destruct (fit (Arr2 n rows) y iw s) as [s' r] eqn:E.
    apply (fit_accepted_frame _ _ _ _ _ _ _ Hacc) in E as [R _]. cbn.
    intros; contradiction.
  - rewrite (fit_rejected _ _ _ _ _ Hacc). cbn. intros _. repeat split.
Qed.


End Validation.

(* ===================================================================== *)
(** ** Prediction *)
(* ===================================================================== *)

Section Prediction.
Context {F G : Type} `{Float64 F} `{NumPy F G}.

Lemma net_input_rows_run (w : list F) m prows :
  length w = S m -> net_input_rows w m prows = Ok (map (net w) prows).
Proof.
  destruct w as [|w0 ws]; [discriminate|]. cbn. intros [= Hm].
  unfold net_input_rows, np_dot_mv, res_bind, mat_vec. cbn.
  rewrite <- Hm, Nat.eqb_refl. by rewrite map_map.
Qed.

Lemma net_input_rows_Ok_inv (w : list F) m prows sc :
  net_input_rows w m prows = Ok sc -> length w = S m.
Proof.
  unfold net_input_rows, np_dot_mv, res_bind.
  destruct (Nat.eqb_spec m (length (tail w))) as [E|E]; [|discriminate].
  destruct w as [|w0 ws]; [discriminate|]. cbn in *. intros _. by rewrite E.
Qed.

(** [predict] does not change the world, and its result is the thresholded
    net input. *)
Lemma predict_run m prows (g : G) (a : Adaline F) w t c0 c1 :
  w_ a = Some w -> thres_ a = Some t -> classes_ a = Some [c0; c1] ->
  predict m prows (g, a) =
  ((g, a), res_bind (net_input_rows w m prows)
             (fun sc => Ok (map (fun v => if Fge v t then c1 else c0) sc))).
Proof.
  intros Ew Et Ec.
  unfold predict, net_input, bind, attr, lift, ret. cbn.
  rewrite Ew. cbn. destruct (net_input_rows w m prows) as [sc|e]; cbn;
    [|reflexivity].
  rewrite Et. cbn. rewrite Ec. reflexivity.
Qed.

Lemma predict_no_weights m prows (g : G) (a : Adaline F) :
  w_ a = None -> predict m prows (g, a) = ((g, a), Raise AttributeError).
Proof.
  intros Ew. unfold predict, net_input, bind, attr. cbn. by rewrite Ew.
Qed.

(** C1.  After a successful fit the instance stores the two labels of the
    training targets, smaller first, and the threshold 0.0 when the smaller
    one is -1 and 0.5 otherwise.  On a table whose column count fits the
    weights, [predict] returns for each row the larger label when the net
    input of the row is >= the threshold and the smaller label otherwise,
    and leaves the world as it was; whenever [predict] returns, its result
    is that list, so every value in it is one of the two training labels. *)
Theorem predict_after_fit n rows y iw (s s' : world F G) :
  fit (Arr2 n rows) y iw s = (s', Ok tt) ->
  exists c0 c1 t,
    classes_ (snd s') = Some [c0; c1] /\ c0 < c1 /\ c0 ∈ y /\ c1 ∈ y /\
    thres_ (snd s') = Some t /\
    t = (if Z.eqb c0 (-1) then F0 else Fhalf) /\
    forall (g : G) m prows,
      (forall w, w_ (snd s') = Some w -> length w = S m ->
         predict m prows (g, snd s') =
         ((g, snd s'),
          Ok (map (fun x => if Fge (net w x) t then c1 else c0) prows))) /\
      (forall st out, predict m prows (g, snd s') = (st, Ok out) ->
         st = (g, snd s') /\
         Forall (fun v => v = c0 \/ v = c1) out /\
         Forall (fun v => v ∈ y) out /\
         exists w, w_ (snd s') = Some w /\ length w = S m /\
           out = map (fun x => if Fge (net w x) t then c1 else c0) prows).
Proof.
  intros E.
  destruct (labels_accepted y) eqn:Hacc;
    [|rewrite (fit_rejected _ _ _ _ _ Hacc) in E; discriminate].
  apply (fit_accepted_frame _ _ _ _ _ _ _ Hacc) in E.
  destruct E as (_ & Hcl & Hth & _).
  apply labels_accepted_inv in Hacc as (c0 & Eu & Hc0).
  rewrite Eu in Hcl, Hth. cbn in Hth.
  assert (Hin : forall x, x ∈ [c0; 1] -> x ∈ y).
  { intros x Hx. apply np_unique_elem. by rewrite Eu. }
  exists c0, 1, (if Z.eqb c0 (-1) then F0 else Fhalf).
  split; [exact Hcl|]. split; [lia|].
  split; [apply Hin; left|]. split; [apply Hin; right; left|].
  split; [exact Hth|]. split; [reflexivity|].
  intros g m prows.
  assert (Hrun : forall w, w_ (snd s') = Some w -> length w = S m ->
    predict m prows (g, snd s') =
    ((g, snd s'),
     Ok (map (fun x => if Fge (net w x) (if Z.eqb c0 (-1) then F0 else Fhalf)
                       then 1 else c0) prows))).
  { intros w Ew Hlen.
    rewrite (predict_run m prows g (snd s') w _ c0 1 Ew Hth Hcl).
    rewrite (net_input_rows_run w m prows Hlen). cbn. by rewrite map_map. }
  split; [exact Hrun|].
  intros st out Ep.
  destruct (w_ (snd s')) as [w|] eqn:Ew;
    [|rewrite (predict_no_weights _ _ _ _ Ew) in Ep; discriminate].
  assert (Hlen : length w = S m).
  { rewrite (predict_run m prows g (snd s') w _ c0 1 Ew Hth Hcl) in Ep.
    destruct (net_input_rows w m prows) as [sc|e] eqn:En; [|discriminate].
    by apply net_input_rows_Ok_inv in En. }
  rewrite (Hrun w eq_refl Hlen) in Ep. injection Ep as <- <-.
  split; [reflexivity|].
  split; [|split].
  - apply Forall_forall. intros v Hv. apply list_elem_of_In in Hv.
    apply in_map_iff in Hv as (x & <- & _). destruct (Fge _ _); auto.
  - apply Forall_forall. intros v Hv. apply list_elem_of_In in Hv.
    apply in_map_iff in Hv as (x & <- & _).
    destruct (Fge _ _); apply Hin; [right; left|left].
  - exists w. auto.
Qed.

End Prediction.

(* ===================================================================== *)
(** ** The iterative solvers on well-shaped data *)
(* ===================================================================== *)

Section Training.
Context {F G : Type} `{Float64 F} `{NumPy F G}.
Local Open Scope monad_scope.

Lemma with_w_same (a : Adaline F) w : w_ a = Some w -> with_w w a = a.
Proof. destruct a. cbn. by intros ->. Qed.

Lemma take_idx_run {A} (d : A) (l : list A) (r : list nat) :
  Forall (fun i => (i < length l)%nat) r ->
  take_idx l r = Ok (map (fun i => nth i l d) r).
Proof.
  intros Hr. unfold take_idx.
  assert (mapM (fun i => l !! i) r = Some (map (fun i => nth i l d) r)) as ->;
    [|reflexivity].
  apply mapM_Some_2. induction Hr as [|i r Hi Hr IH]; cbn; constructor.
  - rewrite nth_lookup. apply lookup_lt_is_Some_2 in Hi as [x Ex].
    by rewrite Ex.
  - exact IH.
Qed.

Lemma perm_indices (r : list nat) n :
  r ≡ₚ seq 0 n -> length r = n /\ Forall (fun i => (i < n)%nat) r.
Proof.
  intros Hp. split.
  - rewrite Hp. apply length_seq.
  - apply Forall_forall. intros i Hi. rewrite Hp in Hi.
    apply elem_of_seq in Hi. lia.
Qed.

Lemma rectangular_nth n (rows : list (list F)) (r : list nat) :
  rectangular n rows -> Forall (fun i => (i < length rows)%nat) r ->
  rectangular n (map (fun i => nth i rows []) r).
Proof.
  unfold rectangular. intros Hrect Hr. apply Forall_forall.
  intros x Hx. apply list_elem_of_In, in_map_iff in Hx as (i & <- & Hi).
  apply list_elem_of_In in Hi.
  rewrite Forall_forall in Hr. specialize (Hr i Hi).
  rewrite Forall_forall in Hrect. apply Hrect.
  apply list_elem_of_In, nth_In. exact Hr.
Qed.

(** The shuffle of aligned data succeeds and keeps them aligned. *)
Lemma shuffle_run `{!NumPyLaws (F:=F) (G:=G)} n rows y (g : G) (a : Adaline F) :
  rectangular n rows -> length y = length rows ->
  _shuffle rows y (g, a) =
    ((fst (fst (shuffled g rows y)), a),
     Ok (snd (fst (shuffled g rows y)), snd (shuffled g rows y))) /\
  rectangular n (snd (fst (shuffled g rows y))) /\
  length (snd (shuffled g rows y)) = length (snd (fst (shuffled g rows y))).
Proof.
  intros Hrect Hlen.
  pose proof (permutation_perm g (length y)) as Hp.
  unfold _shuffle, shuffled, bind, permutation, lift, ret. cbn.
  destruct (random_permutation g (length y)) as [r g'] eqn:Er. cbn in *.
  apply perm_indices in Hp as [Hl Hr].
  assert (Hr' : Forall (fun i => (i < length rows)%nat) r) by by rewrite <- Hlen.
  rewrite (take_idx_run [] rows r Hr'). cbn.
  rewrite (take_idx_run 0 y r Hr). cbn.
  split; [reflexivity|]. split; [by apply rectangular_nth|].
  by rewrite !length_map.
Qed.

(** *** Batch gradient descent *)

Lemma gd_epoch_run n rows y (g : G) (a : Adaline F) w :
  w_ a = Some w -> length w = S n -> length y = length rows ->
  gd_epoch n rows y (g, a) =
  ((g, with_w (fst (gd_step (eta a) n rows y w)) a),
   Ok (snd (gd_step (eta a) n rows y w))).
Proof.
  intros Ew Hw Hy.
  unfold gd_epoch, activation, net_input, bind, attr, lift, self, ret. cbn.
  rewrite Ew. cbn. rewrite (net_input_rows_run w n rows Hw). cbn.
  unfold np_sub. rewrite !length_map, Hy, Nat.eqb_refl. cbn.
  unfold np_dot_mv. rewrite length_zip_with, !length_map, Hy, Nat.min_id.
  rewrite Nat.eqb_refl. cbn.
  unfold iadd_w_tail, bind, attr, lift, modify. cbn. rewrite Ew. cbn.
  unfold np_iadd, mat_vec, transpose.
  rewrite !length_map, length_seq.
  destruct w as [|w0 ws]; [discriminate|]. cbn in Hw |- *.
  injection Hw as Hw. rewrite Hw, Nat.eqb_refl. cbn.
  unfold iadd_w_0, bind, attr, modify. cbn. reflexivity.
Qed.

Lemma gd_step_length lr n rows y (w : list F) :
  length w = S n -> length (fst (gd_step lr n rows y w)) = S n.
Proof.
  intros Hw. unfold gd_step, mat_vec, transpose. cbn.
  rewrite length_zip_with, !length_map, length_seq.
  destruct w; cbn in *; lia.
Qed.

(** *** Stochastic gradient descent *)

Lemma sgd_update_length lr (w x : list F) e :
  length w = S (length x) -> length (sgd_update lr w x e) = length w.
Proof.
  intros Hw. unfold sgd_update. cbn.
  rewrite length_zip_with, length_map. destruct w; cbn in *; lia.
Qed.

Lemma sgd_sample_run cost xi yi (g : G) (a : Adaline F) w :
  w_ a = Some w -> length w = S (length xi) ->
  sgd_sample cost xi yi (g, a) =
  ((g, with_w (sgd_update (eta a) w xi (sgd_error w xi yi)) a),
   Ok (Fadd cost (Fdiv (Fmul (sgd_error w xi yi) (sgd_error w xi yi)) F2))).
Proof.
  intros Ew Hw.
  unfold sgd_sample, net_input1, bind, attr, lift, self, ret. cbn.
  rewrite Ew. cbn. unfold net_input_row.
  destruct w as [|w0 ws]; [discriminate|]. cbn in Hw |- *.
  injection Hw as Hw. rewrite Hw, Nat.eqb_refl. cbn.
  unfold iadd_w_tail, bind, attr, lift, modify. cbn. rewrite Ew. cbn.
  unfold np_iadd. rewrite length_map, Hw, Nat.eqb_refl. cbn.
  unfold iadd_w_0, bind, attr, modify. cbn. reflexivity.
Qed.

Lemma sgd_samples_run n samples : forall cost (g : G) (a : Adaline F) w,
  w_ a = Some w -> length w = S n ->
  Forall (fun p => length (fst p) = n) samples ->
  sgd_samples cost samples (g, a) =
  ((g, with_w (fst (sgd_pass (eta a) w samples)) a),
   Ok (fold_left (fun c e => Fadd c (Fdiv (Fmul e e) F2))
                 (snd (sgd_pass (eta a) w samples)) cost)) /\
  length (fst (sgd_pass (eta a) w samples)) = S n.
Proof.
  induction samples as [|[xi yi] rest IH]; intros cost g a w Ew Hw Hrect.
  - cbn. rewrite (with_w_same a w Ew). auto.
  - apply Forall_cons in Hrect as [Hxi Hrest]. cbn in Hxi.
    assert (Hw' : length w = S (length xi)) by lia.
    cbn [sgd_samples]. unfold bind.
    rewrite (sgd_sample_run cost xi yi g a w Ew Hw').
    set (e := sgd_error w xi yi). set (w1 := sgd_update (eta a) w xi e).
    assert (Hw1 : length w1 = S n)
      by (unfold w1; rewrite sgd_update_length; lia).
    destruct (IH (Fadd cost (Fdiv (Fmul e e) F2)) g (with_w w1 a) w1
                eq_refl Hw1 Hrest) as [Erun Hlen].
    rewrite Erun. cbn [sgd_pass]. fold e. fold w1.
    change (eta (with_w w1 a)) with (eta a) in *.
    destruct (sgd_pass (eta a) w1 rest) as [w' es]. cbn in *. auto.
Qed.

Lemma rectangular_combine n (rows : list (list F)) (y : list Z) :
  rectangular n rows ->
  Forall (fun p => length (fst p) = n) (combine rows y).
Proof.
  unfold rectangular. intros Hrect. apply Forall_forall. intros [x t] Hin.
  apply list_elem_of_In, in_combine_l in Hin. cbn.
  rewrite Forall_forall in Hrect. by apply Hrect, list_elem_of_In.
Qed.

Lemma sgd_epoch_run n rows y (g : G) (a : Adaline F) w :
  w_ a = Some w -> length w = S n -> rectangular n rows ->
  sgd_epoch rows y (g, a) =
  ((g, with_w (fst (sgd_step (eta a) rows y w)) a),
   Ok (snd (sgd_step (eta a) rows y w))) /\
  length (fst (sgd_step (eta a) rows y w)) = S n.
Proof.
  intros Ew Hw Hrect. unfold sgd_epoch, sgd_step, sgd_cost.
  destruct (sgd_samples_run n (combine rows y) F0 g a w Ew Hw
              (rectangular_combine n rows y Hrect)) as [Erun Hlen].
  rewrite Erun. destruct (sgd_pass (eta a) w (combine rows y)) as [w' es].
  auto.
Qed.

End Training.

Section TrainingLoop.
Context {F G : Type} `{Float64 F} `{NumPy F G} `{!NumPyLaws (F:=F) (G:=G)}.
Local Open Scope monad_scope.

Lemma bind_self {A} (k : Adaline F -> Py F G A) s :
  bind self k s = k (snd s) s.
Proof. reflexivity. Qed.

Lemma bind_Ok {A B} (c : Py F G A) (k : A -> Py F G B) s s' a :
  c s = (s', Ok a) -> bind c k s = k a s'.
Proof. unfold bind. by intros ->. Qed.

Lemma bind_ret {A B} (a : A) (k : A -> Py F G B) s :
  bind (ret a) k s = k a s.
Proof. reflexivity. Qed.

Lemma with_cost_same (a : Adaline F) l : cost_ a = Some l -> with_cost l a = a.
Proof. destruct a. cbn. by intros ->. Qed.

(** One epoch of the configured solver on well-shaped data. *)
Lemma epoch_step_run n rows y (g : G) (a : Adaline F) w :
  solver a <> NormalEquation ->
  w_ a = Some w -> length w = S n ->
  rectangular n rows -> length y = length rows ->
  match solver a with
  | GD => gd_epoch n rows y
  | SGD => sgd_epoch rows y
  | NormalEquation => raise NameError
  end (g, a) =
  ((g, with_w (fst (solver_step (solver a) (eta a) n rows y w)) a),
   Ok (snd (solver_step (solver a) (eta a) n rows y w))) /\
  length (fst (solver_step (solver a) (eta a) n rows y w)) = S n.
Proof.
  intros Hso Ew Hw Hrect Hy. destruct (solver a); [done| |]; cbn.
  - split; [by apply gd_epoch_run|by apply gd_step_length].
  - by apply sgd_epoch_run.
Qed.

(** [k] turns of the loop compute [train]. *)
Lemma epochs_loop_run n k : forall (g : G) rows y w costs (a : Adaline F),
  solver a <> NormalEquation ->
  w_ a = Some w -> length w = S n ->
  rectangular n rows -> length y = length rows ->
  cost_ a = Some costs ->
  let T := train (solver_step (solver a) (eta a) n) (shuffle a) k
                 g rows y w costs in
  epochs_loop k n rows y (g, a) =
    ((fst (fst T), with_cost (snd T) (with_w (snd (fst T)) a)), Ok tt) /\
  length (snd (fst T)) = S n /\
  length (snd T) = (length costs + k)%nat.
Proof.
  induction k as [|k IH]; intros g rows y w costs a Hso Ew Hw Hrect Hy Ec T.
  { subst T. cbn. rewrite (with_w_same a w Ew), (with_cost_same a costs Ec).
    split; [reflexivity|]. split; [exact Hw|lia]. }
  cbn [epochs_loop]. rewrite bind_self. cbn [snd].
  assert (Hdata : exists g1 rows1 y1,
    (if shuffle a then shuffled g rows y else (g, rows, y)) = (g1, rows1, y1) /\
    (if shuffle a then _shuffle rows y else ret (rows, y)) (g, a) =
      ((g1, a), Ok (rows1, y1)) /\
    rectangular n rows1 /\ length y1 = length rows1).
  { destruct (shuffle a).
    - destruct (shuffle_run n rows y g a Hrect Hy) as (Esh & Hr1 & Hl1).
      destruct (shuffled g rows y) as [[g1 rows1] y1]. cbn in *.
      exists g1, rows1, y1. auto.
    - exists g, rows, y. auto. }
  destruct Hdata as (g1 & rows1 & y1 & Edata & Erun & Hrect1 & Hy1).
  rewrite (bind_Ok _ _ _ _ _ Erun). rewrite bind_self. cbn [fst snd].
  destruct (epoch_step_run n rows1 y1 g1 a w Hso Ew Hw Hrect1 Hy1)
    as [Estep Hw1].
  rewrite (bind_Ok _ _ _ _ _ Estep).
  subst T. cbn [train]. rewrite Edata.
  destruct (solver_step (solver a) (eta a) n rows1 y1 w) as [w1 c] eqn:Est.
  cbn [fst snd] in *.
  assert (Eapp : append_cost c (g1, with_w w1 a) =
                 ((g1, with_cost (costs ++ [c]) (with_w w1 a)), Ok tt)).
  { rewrite append_cost_run. cbn. by rewrite Ec. }
  rewrite (bind_Ok _ _ _ _ _ Eapp).
  destruct (IH g1 rows1 y1 w1 (costs ++ [c])
              (with_cost (costs ++ [c]) (with_w w1 a)))
    as (Eloop & Hlw & Hlc); try done.
  cbn in Eloop, Hlw, Hlc. rewrite Eloop.
  split; [reflexivity|]. split; [exact Hlw|].
  rewrite Hlc, length_app. cbn. lia.
Qed.

End TrainingLoop.

(* ===================================================================== *)
(** ** The three solvers *)
(* ===================================================================== *)

Section Solvers.
Context {F G : Type} `{Float64 F} `{NumPy F G}.
Local Open Scope monad_scope.

Lemma start_state_weights iw n y (s : world F G) :
  w_ (snd (start_state iw n y s)) =
    (if iw
     then Some (fst (initial_weights (zero_init_weight (snd s)) (1 + n) (fst s)))
     else w_ (snd s)) /\
  fst (start_state iw n y s) =
    (if iw
     then snd (initial_weights (F:=F) (zero_init_weight (snd s)) (1 + n) (fst s))
     else fst s).
Proof.
  unfold start_state. destruct iw; [|by cbn].
  change (zero_init_weight (with_thres _ (with_classes _ (snd s))))
    with (zero_init_weight (snd s)).
  destruct (initial_weights _ _ _). by cbn.
Qed.

(** The iterative solvers on well-shaped data with weights of the right
    length: the fit is [epochs] turns of [train] from the start state. *)
Lemma fit_iterative `{!NumPyLaws (F:=F) (G:=G)} n rows y iw (s : world F G) w0 :
  solver (snd s) <> NormalEquation ->
  labels_accepted y = true ->
  rectangular n rows -> length y = length rows ->
  w_ (snd (start_state iw n y s)) = Some w0 -> length w0 = S n ->
  let s0 := start_state iw n y s in
  let T := train (solver_step (solver (snd s)) (eta (snd s)) n)
                 (shuffle (snd s)) (epochs (snd s)) (fst s0) rows y w0 [] in
  fit (Arr2 n rows) y iw s =
    ((fst (fst T), with_cost (snd T) (with_w (snd (fst T)) (snd s0))), Ok tt) /\
  length (snd (fst T)) = S n /\
  length (snd T) = epochs (snd s).
Proof.
  intros Hso Hacc Hrect Hy Ew Hw s0 T.
  rewrite (fit_accepted _ _ _ _ _ Hacc). fold s0.
  destruct (start_state_config iw n y s) as (Se & Sp & Ssh & Sso & _).
  fold s0 in Se, Sp, Ssh, Sso.
  unfold solve. rewrite bind_self.
  assert (Hso0 : solver (snd s0) <> NormalEquation) by by rewrite Sso.
  destruct (epochs_loop_run n (epochs (snd s0)) (fst s0) rows y w0 []
              (snd s0) Hso0 Ew Hw Hrect Hy (start_state_cost iw n y s))
    as (Erun & Hlw & Hlc).
  rewrite Se, Sp, Ssh, Sso in Erun, Hlw, Hlc. fold T in Erun, Hlw, Hlc.
  replace (match solver (snd s0) with
           | NormalEquation =>
               w <- _normal_equation n rows y ;; modify (with_w w)
           | _ => epochs_loop (epochs (snd s0)) n rows y
           end) with (epochs_loop (epochs (snd s)) n rows y)
    by (rewrite Sp; destruct (solver (snd s0)); done).
  destruct s0 as [g0 a0]. cbn [fst snd] in *.
  rewrite Erun. auto.
Qed.

(** C2.  Batch gradient descent on valid input.  One epoch, run on weights
    [w], computes the net input of every sample from [w], the errors
    target - net input, adds eta * sum(errors) to the bias and
    eta * (X^T . errors) to the feature weights, and yields the cost
    sum(errors^2) / 2; [fit] performs exactly [epochs] such epochs in a row
    from the start weights, appending each cost to the history. *)
Theorem fit_gd_epochs `{!NumPyLaws (F:=F) (G:=G)} n rows y iw
    (s : world F G) w0 :
  solver (snd s) = GD ->
  labels_accepted y = true ->
  rectangular n rows -> length y = length rows ->
  w_ (snd (start_state iw n y s)) = Some w0 -> length w0 = S n ->
  let s0 := start_state iw n y s in
  let lr := eta (snd s) in
  let T := train (gd_step lr n) (shuffle (snd s)) (epochs (snd s))
                 (fst s0) rows y w0 [] in
  (forall (g : G) (a : Adaline F) X t w,
     w_ a = Some w -> length w = S n -> length t = length X ->
     let e := zip_with Fsub (map of_Z t) (map (net w) X) in
     gd_epoch n X t (g, a) =
       ((g, with_w (Fadd (hd F0 w) (Fmul (eta a) (Fsum e))
                      :: zip_with Fadd (tail w)
                           (map (Fmul (eta a)) (mat_vec (transpose n X) e)))
                   a),
        Ok (Fdiv (Fsum (map (fun x => Fmul x x) e)) F2))) /\
  fit (Arr2 n rows) y iw s =
    ((fst (fst T), with_cost (snd T) (with_w (snd (fst T)) (snd s0))), Ok tt) /\
  length (snd T) = epochs (snd s).
Proof.
  intros Hso Hacc Hrect Hy Ew Hw s0 lr T.
  split.
  { intros g a X t w Ea Hlw Ht e. by rewrite (gd_epoch_run n X t g a w). }
  assert (Hne : solver (snd s) <> NormalEquation) by by rewrite Hso.
  destruct (fit_iterative n rows y iw s w0 Hne Hacc Hrect Hy Ew Hw)
    as (Efit & _ & Hlc).
  rewrite Hso in Efit, Hlc. cbn [solver_step] in Efit, Hlc. auto.
Qed.

(** C3.  Stochastic gradient descent on valid input.  One epoch goes through
    the samples in order; for each it computes the error from the weights as
    the previous sample left them, at once adds eta * x_i * error to the
    feature weights and eta * error to the bias, and adds error^2 / 2 to the
    epoch's cost, which starts at 0.0; [fit] performs exactly [epochs] such
    epochs from the start weights, appending each cost to the history. *)
Theorem fit_sgd_epochs `{!NumPyLaws (F:=F) (G:=G)} n rows y iw
    (s : world F G) w0 :
  solver (snd s) = SGD ->
  labels_accepted y = true ->
  rectangular n rows -> length y = length rows ->
  w_ (snd (start_state iw n y s)) = Some w0 -> length w0 = S n ->
  let s0 := start_state iw n y s in
  let lr := eta (snd s) in
  let T := train (sgd_step lr) (shuffle (snd s)) (epochs (snd s))
                 (fst s0) rows y w0 [] in
  (forall (g : G) (a : Adaline F) cost x t w,
     w_ a = Some w -> length w = S (length x) ->
     let e := Fsub (of_Z t) (net w x) in
     sgd_sample cost x t (g, a) =
       ((g, with_w (Fadd (hd F0 w) (Fmul (eta a) e)
                      :: zip_with Fadd (tail w)
                           (map (fun xj => Fmul (eta a) (Fmul xj e)) x))
                   a),
        Ok (Fadd cost (Fdiv (Fmul e e) F2)))) /\
  (forall (g : G) (a : Adaline F) X t w,
     w_ a = Some w -> length w = S n -> rectangular n X ->
     sgd_epoch X t (g, a) =
       ((g, with_w (fst (sgd_pass (eta a) w (combine X t))) a),
        Ok (sgd_cost (snd (sgd_pass (eta a) w (combine X t)))))) /\
  fit (Arr2 n rows) y iw s =
    ((fst (fst T), with_cost (snd T) (with_w (snd (fst T)) (snd s0))), Ok tt) /\
  length (snd T) = epochs (snd s).
Proof.
  intros Hso Hacc Hrect Hy Ew Hw s0 lr T.
  split.
  { intros g a cost x t w Ea Hlw e.
    by rewrite (sgd_sample_run cost x t g a w). }
  split.
  { intros g a X t w Ea Hlw HX.
    destruct (sgd_epoch_run n X t g a w Ea Hlw HX) as [E _].
    rewrite E. unfold sgd_step.
    by destruct (sgd_pass (eta a) w (combine X t)). }
  assert (Hne : solver (snd s) <> NormalEquation) by by rewrite Hso.
  destruct (fit_iterative n rows y iw s w0 Hne Hacc Hrect Hy Ew Hw)
    as (Efit & _ & Hlc).
  rewrite Hso in Efit, Hlc. cbn [solver_step] in Efit, Hlc. auto.
Qed.

(** *** The closed form *)

Lemma solve_normal_equation_run n rows y (s0 : world F G) :
  solver (snd s0) = NormalEquation ->
  solve n rows y s0 =
  match closed_form (G:=G) n rows y with
  | None => (s0, Raise LinAlgError)
  | Some w =>
      if Nat.eqb (length rows) (length y)
      then ((fst s0, with_w w (snd s0)), Ok tt)
      else (s0, Raise AlignError)
  end.
Proof.
  intros Hso. unfold solve. rewrite bind_self, Hso.
  unfold bind. rewrite _normal_equation_run.
  destruct (closed_form n rows y) as [w|]; [|reflexivity].
  destruct (length rows =? length y)%nat; reflexivity.
Qed.

(** C4.  The normal-equation solver on validly labelled rank-2 features and
    aligned targets.  When the inverse exists, the fit succeeds, the weight
    vector is exactly (Xb^T Xb)^-1 Xb^T y for Xb = X with a column of 1.0 in
    front, and the cost history is empty: no epoch is run.  When it does not,
    the fit raises the singular-matrix error and the solver has written
    nothing: the weight vector is the one in place when the solve began,
    which is the earlier one if [init_weights] is false and the freshly
    initialised one otherwise. *)
Theorem fit_normal_equation n rows y iw (s : world F G) :
  solver (snd s) = NormalEquation ->
  labels_accepted y = true ->
  length y = length rows ->
  let s0 := start_state iw n y s in
  let Xb := map (cons F1) rows in
  let XbT := transpose (S n) Xb in
  match linalg_inv (mat_mul XbT (S n) Xb) with
  | Some z =>
      fit (Arr2 n rows) y iw s =
        ((fst s0, with_w (mat_vec z (mat_vec XbT (map of_Z y))) (snd s0)),
         Ok tt) /\
      cost_ (snd (fst (fit (Arr2 n rows) y iw s))) = Some []
  | None =>
      fit (Arr2 n rows) y iw s = (s0, Raise LinAlgError) /\
      w_ (snd (fst (fit (Arr2 n rows) y iw s))) =
        (if iw
         then Some (fst (initial_weights (zero_init_weight (snd s)) (1 + n)
                                         (fst s)))
         else w_ (snd s))
  end.
Proof.
  intros Hso Hacc Hy s0 Xb XbT.
  rewrite (fit_accepted _ _ _ _ _ Hacc). fold s0.
  destruct (start_state_config iw n y s) as (_ & _ & _ & Sso & _).
  fold s0 in Sso. rewrite Hso in Sso.
  rewrite (solve_normal_equation_run n rows y s0 Sso).
  unfold closed_form. fold Xb. fold XbT.
  destruct (linalg_inv (mat_mul XbT (S n) Xb)) as [z|].
  - rewrite Hy, Nat.eqb_refl. split; [reflexivity|]. cbn.
    apply (start_state_cost iw n y s).
  - split; [reflexivity|]. cbn. apply (start_state_weights iw n y s).
Qed.

(** C10.  With the normal-equation solver the outcome of a fit and, when it
    succeeds, the weight vector depend on the features and the targets only:
    two instances that differ in the zero-init flag, in the weights they held
    and in any other attribute, two generator states and two values of
    [init_weights] give the same result and the same final weights. *)
Theorem normal_equation_independent n rows y iw1 iw2 (s1 s2 : world F G) :
  solver (snd s1) = NormalEquation ->
  solver (snd s2) = NormalEquation ->
  snd (fit (Arr2 n rows) y iw1 s1) = snd (fit (Arr2 n rows) y iw2 s2) /\
  (snd (fit (Arr2 n rows) y iw1 s1) = Ok tt ->
   exists w, closed_form (G:=G) n rows y = Some w /\
     w_ (snd (fst (fit (Arr2 n rows) y iw1 s1))) = Some w /\
     w_ (snd (fst (fit (Arr2 n rows) y iw2 s2))) = Some w).
Proof.
  intros Hso1 Hso2.
  destruct (labels_accepted y) eqn:Hacc.
  - rewrite !(fit_accepted _ _ _ _ _ Hacc).
    destruct (start_state_config iw1 n y s1) as (_ & _ & _ & S1 & _).
    destruct (start_state_config iw2 n y s2) as (_ & _ & _ & S2 & _).
    rewrite Hso1 in S1. rewrite Hso2 in S2.
    rewrite (solve_normal_equation_run n rows y _ S1).
    rewrite (solve_normal_equation_run n rows y _ S2).
    destruct (closed_form n rows y) as [w|]; [|split; [done|discriminate]].
    destruct (length rows =? length y)%nat; [|split; [done|discriminate]].
    split; [reflexivity|]. intros _. exists w. by cbn.
  - rewrite !(fit_rejected _ _ _ _ _ Hacc). split; [reflexivity|discriminate].
Qed.

End Solvers.

(* ===================================================================== *)
(** ** The length of the weight vector *)
(* ===================================================================== *)

Section WeightLength.
Context {F G : Type} `{Float64 F} `{NumPy F G} `{!NumPyLaws (F:=F) (G:=G)}.
Local Open Scope monad_scope.

Lemma closed_form_length n rows y (w : list F) :
  closed_form (G:=G) n rows y = Some w -> length w = S n.
Proof.
  unfold closed_form.
  destruct (linalg_inv _) as [z|] eqn:Ez; [|discriminate].
  intros [= <-]. apply inv_rows in Ez.
  unfold mat_vec at 1. rewrite length_map, Ez.
  unfold mat_mul, transpose. by rewrite !length_map, length_seq.
Qed.

(** A completed epoch of gradient descent has checked the weights against the
    column count. *)
Lemma gd_epoch_Ok_inv n rows y (s s' : world F G) c :
  gd_epoch n rows y s = (s', Ok c) ->
  exists w, w_ (snd s) = Some w /\ length w = S n.
Proof.
  unfold gd_epoch, activation, net_input, bind, attr, lift.
  destruct (w_ (snd s)) as [w|] eqn:Ew; [|discriminate]. cbn.
  destruct (net_input_rows w n rows) as [sc|e] eqn:En; [|discriminate].
  intros _. exists w. split; [reflexivity|].
  by apply net_input_rows_Ok_inv in En.
Qed.

Lemma sgd_sample_Ok_inv cost xi yi (s s' : world F G) c :
  sgd_sample cost xi yi s = (s', Ok c) ->
  exists w, w_ (snd s) = Some w /\ length w = S (length xi).
Proof.
  unfold sgd_sample, net_input1, bind, attr, lift.
  destruct (w_ (snd s)) as [w|] eqn:Ew; [|discriminate]. cbn.
  unfold net_input_row.
  destruct (Nat.eqb_spec (length xi) (length (tail w))) as [E|E];
    [|discriminate].
  destruct w as [|w0 ws]; [discriminate|].
  intros _. exists (w0 :: ws). split; [reflexivity|]. cbn in *. by rewrite E.
Qed.

Lemma sgd_epoch_Ok_inv n rows y (s s' : world F G) c :
  rectangular n rows -> rows <> [] -> y <> [] ->
  sgd_epoch rows y s = (s', Ok c) ->
  exists w, w_ (snd s) = Some w /\ length w = S n.
Proof.
  intros Hrect Hrows Hy. unfold sgd_epoch.
  destruct rows as [|x rows]; [done|]. destruct y as [|t y]; [done|].
  cbn [combine sgd_samples]. unfold bind at 1.
  destruct (sgd_sample F0 x t s) as [s1 [c1|e]] eqn:E1; [|discriminate].
  intros _. apply sgd_sample_Ok_inv in E1 as (w & Ew & Hw).
  exists w. split; [exact Ew|].
  apply Forall_inv in Hrect. by rewrite Hw, Hrect.
Qed.

Lemma take_idx_Ok_inv {A} (l l' : list A) (r : list nat) :
  take_idx l r = Ok l' -> length l' = length r /\ Forall (fun x => x ∈ l) l'.
Proof.
  unfold take_idx. destruct (mapM _ r) as [k|] eqn:Em; [|discriminate].
  intros [= <-]. apply mapM_Some_1 in Em. split.
  - symmetry. by eapply Forall2_length.
  - induction Em as [|i x r k Hix _ IH]; constructor; [|exact IH].
    by eapply list_elem_of_lookup_2.
Qed.

(** The data an epoch runs on, when they could be produced. *)
Lemma epoch_data_Ok_inv n rows y (s s1 : world F G) Xy :
  rectangular n rows -> y <> [] ->
  (a <- self ;; if shuffle a then _shuffle rows y else ret (rows, y)) s
    = (s1, Ok Xy) ->
  rectangular n (fst Xy) /\ snd Xy <> [] /\ (rows <> [] -> fst Xy <> []).
Proof.
  intros Hrect Hy. rewrite bind_self.
  destruct (shuffle (snd s)).
  - unfold _shuffle, bind, permutation, lift, ret.
    pose proof (permutation_perm (fst s) (length y)) as Hp.
    destruct (random_permutation (fst s) (length y)) as [r g']. cbn in Hp |- *.
    apply perm_indices in Hp as [Hlen _].
    destruct (take_idx rows r) as [rows'|] eqn:Er; [|discriminate]. cbn.
    destruct (take_idx y r) as [y'|] eqn:Ey; [|discriminate]. cbn.
    intros [= <- <-]. cbn.
    apply take_idx_Ok_inv in Er as [Lr Hin].
    apply take_idx_Ok_inv in Ey as [Ly _].
    assert (length y <> 0)%nat by (destruct y; cbn; [done|lia]).
    split; [|split].
    + unfold rectangular in *. rewrite Forall_forall in Hrect, Hin |- *.
      intros x Hx. apply Hrect, Hin, Hx.
    + intros ->. cbn in Ly. lia.
    + intros _ ->. cbn in Lr. lia.
  - intros [= <- <-]. cbn. auto.
Qed.

(** A loop that completed at least one epoch has met weights of length
    [1 + n]. *)
Lemma epochs_loop_Ok_shape n k rows y (s s' : world F G) :
  rectangular n rows -> y <> [] ->
  solver (snd s) = GD \/ rows <> [] ->
  epochs_loop (S k) n rows y s = (s', Ok tt) ->
  exists w, w_ (snd s) = Some w /\ length w = S n.
Proof.
  intros Hrect Hy Hcase E.
  change (epochs_loop (S k) n rows y) with
    (Xy <- (a <- self ;; if shuffle a then _shuffle rows y else ret (rows, y)) ;;
     cost <- (a <- self ;;
              match solver a with
              | GD => gd_epoch n (fst Xy) (snd Xy)
              | SGD => sgd_epoch (fst Xy) (snd Xy)
              | NormalEquation => raise NameError
              end) ;;
     append_cost cost ;;; epochs_loop k n (fst Xy) (snd Xy)) in E.
  unfold bind at 1 in E.
  destruct (quiet_epoch_data rows y s) as [(C1 & _ & S1) _].
  destruct ((a <- self ;; if shuffle a then _shuffle rows y else ret (rows, y)) s)
    as [s1 [Xy|e]] eqn:Ed; [|discriminate]. cbn in C1, S1.
  apply (epoch_data_Ok_inv n) in Ed as (Hrect1 & Hy1 & Hrows1); try done.
  unfold bind at 1 in E. rewrite bind_self in E.
  destruct C1 as (_ & _ & _ & Cso & _).
  assert (Hw1 : exists w, w_ (snd s1) = Some w /\ length w = S n).
  { destruct (solver (snd s1)) eqn:Eso1.
    - discriminate.
    - destruct (gd_epoch n (fst Xy) (snd Xy) s1) as [s2 [c|e]] eqn:Eg;
        [|discriminate].
      by apply gd_epoch_Ok_inv in Eg.
    - destruct (sgd_epoch (fst Xy) (snd Xy) s1) as [s2 [c|e]] eqn:Eg;
        [|discriminate].
      apply (sgd_epoch_Ok_inv n) in Eg; try done.
      apply Hrows1. destruct Hcase as [Hgd|Hne]; [congruence|exact Hne]. }
  destruct Hw1 as (w1 & Ew1 & Hlen1).
  unfold same_shape in S1. rewrite Ew1 in S1. cbn in S1.
  destruct (w_ (snd s)) as [w|]; [|discriminate].
  exists w. split; [reflexivity|]. cbn in S1. congruence.
Qed.

Lemma labels_accepted_nonempty y : labels_accepted y = true -> y <> [].
Proof. intros Hacc ->. discriminate. Qed.

(** C9, as the code has it.  After a fit that returns successfully the
    weight vector has length [1 + n] when [init_weights] is true, or the
    solver is the normal equation, or at least one epoch is run and (for
    sgd) the features have at least one row. *)
Theorem fit_weight_length n rows y iw (s s' : world F G) :
  rectangular n rows ->
  fit (Arr2 n rows) y iw s = (s', Ok tt) ->
  iw = true \/ solver (snd s) = NormalEquation \/
    ((1 <= epochs (snd s))%nat /\ (solver (snd s) = GD \/ rows <> [])) ->
  exists w, w_ (snd s') = Some w /\ length w = S n.
Proof.
  intros Hrect E Hcase.
  destruct (labels_accepted y) eqn:Hacc;
    [|rewrite (fit_rejected _ _ _ _ _ Hacc) in E; discriminate].
  rewrite (fit_accepted _ _ _ _ _ Hacc) in E.
  destruct (start_state_config iw n y s) as (_ & Sp & _ & Sso & _).
  destruct (start_state_weights iw n y s) as [Sw _].
  set (s0 := start_state iw n y s) in *.
  destruct (solver (snd s)) eqn:Eso.
  { rewrite (solve_normal_equation_run n rows y s0 Sso) in E.
    destruct (closed_form n rows y) as [w|] eqn:Ecf; [|discriminate].
    destruct (length rows =? length y)%nat; [|discriminate].
    injection E as <-. exists w. split; [reflexivity|].
    by apply closed_form_length in Ecf. }
  all: unfold solve in E; rewrite bind_self, Sso, Sp in E.
  all: assert (Hw0 : exists w, w_ (snd s0) = Some w /\ length w = S n).
  1,3: destruct Hcase as [->|[?|[Hep Hr]]]; try discriminate.
  1,3: rewrite Sw; eexists; split; [reflexivity|];
       apply (initial_weights_length _ (1 + n)).
  1,2: destruct (epochs (snd s)) as [|k]; [lia|];
       apply (epochs_loop_Ok_shape n k rows y s0 s'); try done;
       [by apply labels_accepted_nonempty|rewrite Sso; tauto].
  all: destruct Hw0 as (w0 & Ew0 & Hlen0);
       apply epochs_loop_frame in E as (_ & Ssh & _);
       unfold same_shape in Ssh; rewrite Ew0 in Ssh; cbn in Ssh;
       destruct (w_ (snd s')) as [w|]; [|discriminate];
       exists w; split; [reflexivity|]; cbn in Ssh; congruence.
Qed.

End WeightLength.

(* ===================================================================== *)
(** ** Weight initialisation *)
(* ===================================================================== *)

Section Initialisation.
Context {F G : Type} `{Float64 F} `{NumPy F G}.
Local Open Scope monad_scope.

Lemma init_value_interval (toQ : F -> Q) `{!ExactArith toQ} (u : F) :
  (0 <= toQ u < 1)%Q ->
  (-(1 # 2) <= toQ (init_value u) < -(3 # 10))%Q.
Proof.
  intros [Hlo Hhi]. unfold init_value.
  rewrite toQ_sub, toQ_mul, toQ_fifth, toQ_half. split; lra.
Qed.

(** C6.  A fit with [init_weights] true on features with [n] columns hands
    the solver a weight vector of length [1 + n], written by
    [_init_weights] before any update.  With the zero-init flag it is all
    zeros and no random number is drawn; otherwise entry [i] is
    [0.2 * u_i - 0.5] for the i-th of [1 + n] successive draws, and, read in
    exact arithmetic with draws in [0,1), every entry lies in
    [-0.5, -0.3). *)
Theorem fit_initial_weights n rows y (s : world F G) :
  labels_accepted y = true ->
  let s0 := start_state true n y s in
  let zi := zero_init_weight (snd s) in
  let us := fst (ranf_from (1 + n) (fst s)) in
  fit (Arr2 n rows) y true s = solve n rows y s0 /\
  (forall (g : G) (a : Adaline F),
     _init_weights (1 + n) (g, a) =
     ((snd (initial_weights (F:=F) (zero_init_weight a) (1 + n) g),
       with_w (fst (initial_weights (zero_init_weight a) (1 + n) g)) a),
      Ok tt)) /\
  exists w0,
    w_ (snd s0) = Some w0 /\ length w0 = (1 + n)%nat /\
    (zi = true -> w0 = replicate (1 + n) F0 /\ fst s0 = fst s) /\
    (zi = false ->
       length us = (1 + n)%nat /\
       w0 = map (fun u => Fsub (Fmul Ffifth u) Fhalf) us /\
       fst s0 = snd (ranf_from (F:=F) (1 + n) (fst s)) /\
       forall toQ : F -> Q, ExactArith toQ ->
         Forall (fun u => (0 <= toQ u < 1)%Q) us ->
         Forall (fun wi => (-(1 # 2) <= toQ wi < -(3 # 10))%Q) w0).
Proof.
  intros Hacc s0 zi us.
  split; [by apply fit_accepted|].
  split.
  { intros g a. rewrite _init_weights_run.
    by destruct (initial_weights (zero_init_weight a) (1 + n) g). }
  destruct (start_state_weights true n y s) as [Sw Sg].
  fold s0 in Sw, Sg. fold zi in Sw, Sg.
  exists (fst (initial_weights zi (1 + n) (fst s))).
  split; [exact Sw|].
  split; [apply (initial_weights_length zi (1 + n))|].
  split.
  - intros Ez. rewrite Sg, Ez. by cbn.
  - intros Ez. rewrite Sg, Ez. unfold initial_weights.
    pose proof (ranf_from_length (F:=F) (1 + n) (fst s)) as Hlen.
    fold us in Hlen. subst us.
    destruct (ranf_from (1 + n) (fst s)) as [us g'].
    cbn [fst snd] in *.
    split; [exact Hlen|]. split; [reflexivity|]. split; [reflexivity|].
    intros toQ HQ Hus. apply Forall_forall. intros wi Hwi.
    apply list_elem_of_In, in_map_iff in Hwi as (u & <- & Hu).
    apply (init_value_interval toQ).
    rewrite Forall_forall in Hus. by apply Hus, list_elem_of_In.
Qed.

End Initialisation.

(* ===================================================================== *)
(** ** The example interpretations satisfy the laws *)
(* ===================================================================== *)

Lemma inv_small_rows {F} `{Float64 F} (A z : list (list F)) :
  inv_small A = Some z -> length z = length A.
Proof.
  unfold inv_small.
  destruct A as [|[|a [|b [|? ?]]] [|[|c [|d [|? ?]]] [|? ?]]];
    try discriminate.
  - destruct (Feq0 a); [discriminate|]. by intros [= <-].
  - destruct (Feq0 _); [discriminate|]. by intros [= <-].
Qed.

Lemma toy_permutation_perm (g n : nat) : fst (toy_permutation g n) ≡ₚ seq 0 n.
Proof. cbn. symmetry. apply Permutation_rev. Qed.

Import ExactQ Binary64.

Lemma Q_laws : NumPyLaws (F:=Q) (G:=nat).
Proof.
  split; [apply toy_permutation_perm|].
  intros A z. apply (inv_small_rows (F:=Q)).
Qed.

Lemma float_laws : NumPyLaws (F:=float) (G:=nat).
Proof.
  split; [apply toy_permutation_perm|].
  intros A z. apply (inv_small_rows (F:=float)).
Qed.

Lemma Q_exact : ExactArith (F:=Q) (fun q => q).
Proof.
  split; cbn; intros; try apply Qred_correct; reflexivity.
Qed.

(* ===================================================================== *)
(** ** The theorems at concrete inputs *)
(* ===================================================================== *)

Import Examples.

Lemma predict_after_fit_witness :
  fit (Arr2 1 X4) y4 true (0%nat, fresh NormalEquation 5 false false)
    = (solved4, Ok tt) /\
  exists c0 c1 t,
    classes_ (snd solved4) = Some [c0; c1] /\ c0 < c1 /\ c0 ∈ y4 /\ c1 ∈ y4 /\
    thres_ (snd solved4) = Some t /\
    (forall w, w_ (snd solved4) = Some w -> length w = 2%nat ->
       predict 1 [[0]; [4]]%Q (7%nat, snd solved4) =
       ((7%nat, snd solved4),
        Ok (map (fun x => if Fge (net w x) t then c1 else c0) [[0]; [4]]%Q))).
Proof.
  assert (E : fit (Arr2 1 X4) y4 true (0%nat, fresh NormalEquation 5 false false)
              = (solved4, Ok tt)) by (vm_compute; reflexivity).
  split; [exact E|].
  destruct (predict_after_fit 1 X4 y4 true _ _ E)
    as (c0 & c1 & t & Hc & Hlt & H0 & H1 & Ht & _ & Hp).
  exists c0, c1, t. repeat (split; [assumption|]).
  exact (proj1 (Hp 7%nat 1%nat [[0]; [4]]%Q)).
Defined.

Lemma fit_gd_epochs_witness :
  let s := (0%nat, fresh GD 3 true true) in
  let s0 := start_state true 1 y4 s in
  exists T,
    T = train (gd_step (1 # 100)%Q 1) true 3 (fst s0) X4 y4 [0; 0]%Q [] /\
    fit (Arr2 1 X4) y4 true s =
      ((fst (fst T), with_cost (snd T) (with_w (snd (fst T)) (snd s0))),
       Ok tt) /\
    length (snd T) = 3%nat.
Proof.
  intros s s0.
  destruct (fit_gd_epochs (NumPyLaws0:=Q_laws) 1 X4 y4 true s [0; 0]%Q)
    as (_ & E & L).
  - reflexivity.
  - vm_compute; reflexivity.
  - repeat constructor.
  - reflexivity.
  - vm_compute; reflexivity.
  - reflexivity.
  - eexists. split; [reflexivity|]. split; [exact E|exact L].
Defined.

Lemma fit_sgd_epochs_witness :
  let s := (0%nat, fresh SGD 3 true true) in
  let s0 := start_state true 2 y42 s in
  exists T,
    T = train (sgd_step (1 # 100)%Q) true 3 (fst s0) X42 y42 [0; 0; 0]%Q [] /\
    fit (Arr2 2 X42) y42 true s =
      ((fst (fst T), with_cost (snd T) (with_w (snd (fst T)) (snd s0))),
       Ok tt) /\
    length (snd T) = 3%nat.
Proof.
  intros s s0.
  destruct (fit_sgd_epochs (NumPyLaws0:=Q_laws) 2 X42 y42 true s [0; 0; 0]%Q)
    as (_ & _ & E & L).
  - reflexivity.
  - vm_compute; reflexivity.
  - repeat constructor.
  - reflexivity.
  - vm_compute; reflexivity.
  - reflexivity.
  - eexists. split; [reflexivity|]. split; [exact E|exact L].
Defined.

Lemma fit_normal_equation_witness :
  let s := (0%nat, fresh NormalEquation 5 false true) in
  let s0 := start_state true 1 y4 s in
  fit (Arr2 1 X4) y4 true s =
    ((fst s0, with_w [-6 # 5; 4 # 5]%Q (snd s0)), Ok tt) /\
  cost_ (snd (fst (fit (Arr2 1 X4) y4 true s))) = Some [].
Proof.
  exact (fit_normal_equation 1 X4 y4 true
           (0%nat, fresh NormalEquation 5 false true)
           eq_refl eq_refl eq_refl).
Defined.

Lemma fit_initial_weights_witness :
  let s := (3%nat, fresh SGD 1 false false) in
  exists w0,
    w_ (snd (start_state true 1 y4 s)) = Some w0 /\ length w0 = 2%nat /\
    w0 = map (fun u => Fsub (Fmul Ffifth u) Fhalf) [3 # 10; 2 # 5]%Q /\
    Forall (fun wi => (-(1 # 2) <= wi < -(3 # 10))%Q) w0.
Proof.
  intros s.
  destruct (fit_initial_weights 1 X4 y4 s eq_refl)
    as (_ & _ & w0 & Ew & Hl & _ & Hr).
  destruct (Hr eq_refl) as (_ & Hw & _ & HQ).
  exists w0. split; [exact Ew|]. split; [exact Hl|]. split; [exact Hw|].
  apply (HQ (fun q => q) Q_exact).
  repeat constructor; vm_compute; congruence.
Defined.



(** A rejected call overwrites the label array a successful fit had stored. *)
Lemma fit_label_error_overwrites_classes :
  classes_ (snd fitted42) = Some [0; 1] /\
  snd (fit (Arr2 2 X42) [1; 2; 1; 2] true fitted42) = Raise LabelError /\
  classes_ (snd (fst (fit (Arr2 2 X42) [1; 2; 1; 2] true fitted42)))
    = Some [1; 2].
Proof. vm_compute. repeat split. Qed.

Lemma fit_label_error_frame_witness :
  snd (fit (Arr2 2 X42) [1; 2; 1; 2] true fitted42) = Raise LabelError /\
  w_ (snd (fst (fit (Arr2 2 X42) [1; 2; 1; 2] true fitted42)))
    = w_ (snd fitted42) /\
  cost_ (snd (fst (fit (Arr2 2 X42) [1; 2; 1; 2] true fitted42)))
    = cost_ (snd fitted42).
Proof.
  assert (E : snd (fit (Arr2 2 X42) [1; 2; 1; 2] true fitted42)
              = Raise LabelError) by (vm_compute; reflexivity).
  split; [exact E|].
  destruct (fit_label_error_frame (Arr2 2 X42) [1; 2; 1; 2] true fitted42 E)
    as (_ & Hw & Hc & _).
  split; [exact Hw|exact Hc].
Defined.

(** With no epoch to run, a fit that keeps its weights succeeds on features
    of another width and leaves the old vector in place. *)
Lemma fit_keeps_stale_weights :
  snd (fit (Arr2 1 X4) y4 false idle42) = Ok tt /\
  w_ (snd (fst (fit (Arr2 1 X4) y4 false idle42))) = Some [0; 0; 0]%Q /\
  ~ (exists w, w_ (snd (fst (fit (Arr2 1 X4) y4 false idle42))) = Some w /\
               length w = (1 + 1)%nat).
Proof.
  assert (E : w_ (snd (fst (fit (Arr2 1 X4) y4 false idle42)))
              = Some [0; 0; 0]%Q) by (vm_compute; reflexivity).
  split; [vm_compute; reflexivity|]. split; [exact E|].
  intros (w & Ew & Hlen). rewrite E in Ew. injection Ew as <-. discriminate.
Qed.

Lemma fit_weight_length_witness :
  exists w, w_ (snd (fst (fit (Arr2 2 X42) y42 false fitted42))) = Some w /\
            length w = 3%nat.
Proof.
  apply (fit_weight_length (NumPyLaws0:=Q_laws) 2 X42 y42 false fitted42).
  - repeat constructor.
  - vm_compute; reflexivity.
  - right. right. split; [vm_compute; lia|left; vm_compute; reflexivity].
Defined.

Lemma normal_equation_independent_witness :
  let s1 := (0%nat, fresh NormalEquation 5 false true) in
  let s2 := (4%nat, with_w [9; 9; 9]%Q (fresh NormalEquation 50 true false)) in
  snd (fit (Arr2 1 X4) y4 true s1) = snd (fit (Arr2 1 X4) y4 false s2) /\
  exists w,
    w_ (snd (fst (fit (Arr2 1 X4) y4 true s1))) = Some w /\
    w_ (snd (fst (fit (Arr2 1 X4) y4 false s2))) = Some w.
Proof.
  intros s1 s2.
  destruct (normal_equation_independent 1 X4 y4 true false s1 s2
              eq_refl eq_refl) as [E Hw].
  split; [exact E|].
  destruct Hw as (w & _ & E1 & E2); [vm_compute; reflexivity|].
  exists w. split; [exact E1|exact E2].
Defined.

(* ===================================================================== *)
(** ** Further runs of the model *)
(* ===================================================================== *)

(** The label sets the specification names: {1,2} and {0,1,2} are rejected,
    {0,1} and {-1,1} are accepted. *)
Example label_sets_of_the_specification :
  snd (fit (Arr2 2 X42) [1; 2; 2; 1] true (0%nat, fresh SGD 1 false true))
    = Raise LabelError /\
  snd (fit (Arr2 2 X42) [0; 1; 2; 0] true (0%nat, fresh SGD 1 false true))
    = Raise LabelError /\
  snd (fit (Arr2 2 X42) [1; 0; 0; 1] true (0%nat, fresh SGD 1 false true))
    = Ok tt /\
  snd (fit (Arr2 2 X42) [1; -1; 1; -1] true (0%nat, fresh SGD 1 false true))
    = Ok tt.
Proof. vm_compute. repeat split. Qed.

(** A rank-1 array is refused before anything is written. *)
Example rank1_features_refused :
  fit (Arr1 [0; 1; 2; 3]%Q) y4 true fitted42 = (fitted42, Raise ShapeError).
Proof. reflexivity. Qed.

(** A singular design: the error comes from the inverse, and with
    [init_weights] false the earlier weights stay. *)
Example singular_design :
  let s := (0%nat, with_w [7; 7]%Q (fresh NormalEquation 5 false true)) in
  snd (fit (Arr2 1 Xconst) y4 false s) = Raise LinAlgError /\
  w_ (snd (fst (fit (Arr2 1 Xconst) y4 false s))) = Some [7; 7]%Q /\
  w_ (snd (fst (fit (Arr2 1 Xconst) y4 true s))) = Some [0; 0]%Q.
Proof. vm_compute. repeat split. Qed.

(** An sgd pass over no rows checks nothing either: the weights of an earlier
    fit on two features survive a fit on one-column features. *)
Example sgd_over_no_rows :
  let s := fst (fit (Arr2 2 X42) y42 true (0%nat, fresh SGD 1 false true)) in
  snd (fit (Arr2 1 []) [0; 1] false s) = Ok tt /\
  length <$> w_ (snd (fst (fit (Arr2 1 []) [0; 1] false s))) = Some 3%nat.
Proof. vm_compute. repeat split. Qed.

(** The scenarios of the specification, run in binary64. *)
Example binary64_normal_equation_scenario :
  let s := (0%nat, freshf NormalEquation 50 false false) in
  snd (predict 1 [[0]; [4]]%float (fst (fit (Arr2 1 X4f) y4 true s)))
    = Ok [-1; 1].
Proof. vm_compute. reflexivity. Qed.

Example binary64_sgd_scenario :
  let s := (0%nat, freshf SGD 10 false true) in
  snd (fit (Arr2 2 X42f) y42 true s) = Ok tt /\
  length <$> cost_ (snd (fst (fit (Arr2 2 X42f) y42 true s))) = Some 10%nat /\
  snd (predict 2 X42f (fst (fit (Arr2 2 X42f) y42 true s))) = Ok y42.
Proof. vm_compute. repeat split. Qed.

(** The ends of the initialisation interval in binary64: the draw 0.0 gives
    -0.5, and the largest double below 1.0 gives a value below -0.3. *)
Example binary64_init_value_ends :
  init_value PrimFloat.zero = (-0.5)%float /\
  PrimFloat.ltb (init_value (PrimFloat.next_down PrimFloat.one))
                (PrimFloat.opp (PrimFloat.div (Binary64.float_of_Z 3)
                                              (Binary64.float_of_Z 10)))
    = true.
Proof. vm_compute. split; reflexivity. Qed.

(* ===================================================================== *)
(** * Further properties of the class *)
(* ===================================================================== *)

(** ** The constructor and an instance that was never fitted *)

Section Construction.
Context {F G : Type} `{Float64 F} `{NumPy F G}.

Lemma parse_solver_None name :
  parse_solver name = None <->
  name <> "normal equation"%string /\ name <> "gd"%string /\
  name <> "sgd"%string.
Proof.
  unfold parse_solver.
  destruct (String.eqb_spec name "normal equation") as [->|N1];
    [split; [discriminate|intros (? & _); congruence]|].
  destruct (String.eqb_spec name "gd") as [->|N2];
    [split; [discriminate|intros (_ & ? & _); congruence]|].
  destruct (String.eqb_spec name "sgd") as [->|N3];
    [split; [discriminate|intros (_ & _ & ?); congruence]|].
  split; auto.
Qed.

(** [__init__] seeds the global generator before it looks at the solver
    name.  A seed out of range (an integer below 0 or above 2**32 - 1) makes
    it raise at once, whatever the solver name, with the generator left as
    it was.  With a seed [np.random.seed] takes, the generator is reseeded
    whether or not construction then succeeds, and construction fails
    exactly when the name is none of "normal equation", "gd" and "sgd".
    The instance it returns has no learned attribute, so [predict] and
    [net_input] on it raise AttributeError and change nothing. *)
Theorem constructor_outcome lr ep name seed sh zi (g : G) :
  (seed_accepted seed = false ->
   Adaline_init (F:=F) lr ep name seed sh zi g = (g, Raise SeedError)) /\
  (seed_accepted seed = true ->
   fst (Adaline_init (F:=F) lr ep name seed sh zi g) = random_seed seed g /\
   (snd (Adaline_init (F:=F) lr ep name seed sh zi g) = Raise ConfigError <->
    name <> "normal equation"%string /\ name <> "gd"%string /\
    name <> "sgd"%string)) /\
  ((exists a, snd (Adaline_init (F:=F) lr ep name seed sh zi g) = Ok a) <->
   seed_accepted seed = true /\
   (name = "normal equation"%string \/ name = "gd"%string \/
    name = "sgd"%string)) /\
  forall a, snd (Adaline_init lr ep name seed sh zi g) = Ok a ->
    hyperparameters a = (lr, ep, sh, solver a, zi) /\
    parse_solver name = Some (solver a) /\
    forall (g0 : G) m rows,
      predict m rows (g0, a) = ((g0, a), Raise AttributeError) /\
      net_input m rows (g0, a) = ((g0, a), Raise AttributeError).
Proof.
  assert (Hknown : (exists so, parse_solver name = Some so) <->
            name = "normal equation"%string \/ name = "gd"%string \/
            name = "sgd"%string).
  { unfold parse_solver.
    destruct (String.eqb_spec name "normal equation") as [->|N1];
      [split; [auto|by eexists]|].
    destruct (String.eqb_spec name "gd") as [->|N2];
      [split; [auto|by eexists]|].
    destruct (String.eqb_spec name "sgd") as [->|N3];
      [split; [auto|by eexists]|].
    split; [intros [so E]; discriminate|intros [?|[?|?]]; contradiction]. }
  unfold Adaline_init.
  destruct (seed_accepted seed).
  - destruct (parse_solver name) as [so|] eqn:Ep; cbn.
    + split; [discriminate|]. split.
      { intros _. split; [reflexivity|].
        split; [discriminate|]. intros Hn. apply parse_solver_None in Hn.
        congruence. }
      split.
      { split; [intros _; split; [reflexivity|]; apply Hknown; by eexists|].
        intros _. by eexists. }
      intros a [= <-]. cbn. auto.
    + split; [discriminate|]. split.
      { intros _. split; [reflexivity|].
        split; [intros _; by apply parse_solver_None|reflexivity]. }
      split.
      { split; [intros [a E]; discriminate|].
        intros [_ Hk]. apply Hknown in Hk as [so E]. discriminate. }
      discriminate.
  - cbn. split; [reflexivity|]. split; [discriminate|]. split.
    + split; [intros [a E]; discriminate|intros [E _]; discriminate].
    + discriminate.
Qed.

End Construction.

(** ** What [fit] never changes and what the readers never change *)

Section Readers.
Context {F G : Type} `{Float64 F} `{NumPy F G}.

(** Whatever the arguments and whatever the outcome, [fit] leaves the five
    hyperparameters of the instance as they were. *)
Theorem fit_keeps_hyperparameters X y iw (s : world F G) :
  hyperparameters (snd (fst (fit X y iw s))) = hyperparameters (snd s).
Proof.
  unfold hyperparameters.
  destruct X as [v|n rows]; [reflexivity|].
  destruct (labels_accepted y) eqn:Hacc.
  - destruct (fit (Arr2 n rows) y iw s) as [s' r] eqn:E.
    apply (fit_accepted_frame _ _ _ _ _ _ _ Hacc) in E.
    destruct E as (_ & _ & _ & Hso & Hep & Heta & Hsh & Hzi & _). cbn.
    by rewrite Hso, Hep, Heta, Hsh, Hzi.
  - by rewrite (fit_rejected _ _ _ _ _ Hacc).
Qed.

(** [net_input] succeeds exactly when a weight vector exists and has one
    entry more than the table has columns; it then returns one score per
    row, the net input of that row. *)
Theorem net_input_succeeds_iff n rows (s : world F G) :
  ((exists sc, snd (net_input n rows s) = Ok sc) <->
   (exists w, w_ (snd s) = Some w /\ length w = S n)) /\
  (forall w, w_ (snd s) = Some w -> length w = S n ->
     net_input n rows s = (s, Ok (map (net w) rows))).
Proof.
  assert (Hrun : forall w, w_ (snd s) = Some w -> length w = S n ->
            net_input n rows s = (s, Ok (map (net w) rows))).
  { intros w Ew Hw. unfold net_input, bind, attr, lift. rewrite Ew.
    by rewrite (net_input_rows_run w n rows Hw). }
  split; [|exact Hrun]. split.
  - intros [sc E]. unfold net_input, bind, attr, lift in E.
    destruct (w_ (snd s)) as [w|]; [|discriminate]. cbn in E.
    exists w. split; [reflexivity|]. by eapply net_input_rows_Ok_inv.
  - intros (w & Ew & Hw). rewrite (Hrun w Ew Hw). by eexists.
Qed.

(** [predict], [net_input] and [activation] never change the instance or
    the generator, whether they return or raise; [activation] is
    [net_input]; and what [predict] and [net_input] return has one entry per
    row. *)
Theorem readers_are_pure m rows (s : world F G) :
  fst (predict m rows s) = s /\
  fst (net_input m rows s) = s /\
  activation m rows s = net_input m rows s /\
  (forall out, snd (predict m rows s) = Ok out -> length out = length rows) /\
  (forall sc, snd (net_input m rows s) = Ok sc -> length sc = length rows).
Proof.
  assert (Hn : fst (net_input m rows s) = s /\
               forall sc, snd (net_input m rows s) = Ok sc ->
                          length sc = length rows).
  { unfold net_input, bind, attr, lift.
    destruct (w_ (snd s)) as [w|]; cbn; [|split; [done|discriminate]].
    split; [reflexivity|]. intros sc E.
    pose proof (net_input_rows_Ok_inv w m rows sc E) as Hw.
    rewrite (net_input_rows_run w m rows Hw) in E. injection E as <-.
    apply length_map. }
  destruct Hn as [Hfst Hlen].
  split; [|split; [exact Hfst|split; [reflexivity|split; [|exact Hlen]]]].
  - unfold predict, bind at 1.
    destruct (net_input m rows s) as [s1 [sc|e]]; cbn in Hfst; subst s1;
      [|reflexivity].
    unfold bind, attr, raise, ret.
    destruct (thres_ (snd s)); cbn; [|reflexivity].
    destruct (classes_ (snd s)) as [cls|]; cbn; [|reflexivity].
    destruct (cls !! 1%nat); [|reflexivity].
    destruct (cls !! 0%nat); reflexivity.
  - intros out. unfold predict, bind at 1.
    destruct (net_input m rows s) as [s1 [sc|e]]; [|discriminate].
    specialize (Hlen sc eq_refl).
    unfold bind, attr, raise, ret.
    destruct (thres_ (snd s1)); cbn; [|discriminate].
    destruct (classes_ (snd s1)) as [cls|]; cbn; [|discriminate].
    destruct (cls !! 1%nat); [|discriminate].
    destruct (cls !! 0%nat); [|discriminate].
    intros [= <-]. by rewrite length_map.
Qed.

End Readers.

(** ** Prediction from any instance *)

Section PredictAnywhere.
Context {F G : Type} `{Float64 F} `{NumPy F G}.

Lemma predict_outcome m rows (g : G) (a : Adaline F) w t cls :
  w_ a = Some w -> length w = S m ->
  thres_ a = Some t -> classes_ a = Some cls ->
  predict m rows (g, a) =
  ((g, a),
   match cls with
   | c0 :: c1 :: _ =>
       Ok (map (fun x => if Fge (net w x) t then c1 else c0) rows)
   | _ => Raise IndexError
   end).
Proof.
  intros Ew Hw Et Ec.
  unfold predict, net_input, bind, attr, lift, ret, raise. cbn.
  rewrite Ew. cbn. rewrite (net_input_rows_run w m rows Hw). cbn.
  rewrite Et. cbn. rewrite Ec. cbn.
  destruct cls as [|c0 [|c1 rest]]; cbn; try reflexivity.
  by rewrite map_map.
Qed.

(** [predict] returns exactly when the instance has weights that fit the
    table, a threshold, and a label array of at least two entries; it then
    answers with entry 1 of the array where the net input reaches the
    threshold and with entry 0 elsewhere. *)
Theorem predict_succeeds_iff m rows (s : world F G) :
  ((exists out, snd (predict m rows s) = Ok out) <->
   (exists w t c0 c1 rest,
      w_ (snd s) = Some w /\ length w = S m /\ thres_ (snd s) = Some t /\
      classes_ (snd s) = Some (c0 :: c1 :: rest))) /\
  (forall w t c0 c1 rest,
     w_ (snd s) = Some w -> length w = S m -> thres_ (snd s) = Some t ->
     classes_ (snd s) = Some (c0 :: c1 :: rest) ->
     snd (predict m rows s) =
       Ok (map (fun x => if Fge (net w x) t then c1 else c0) rows)).
Proof.
  destruct s as [g a]. cbn [snd].
  assert (Hrun : forall w t c0 c1 rest,
     w_ a = Some w -> length w = S m -> thres_ a = Some t ->
     classes_ a = Some (c0 :: c1 :: rest) ->
     snd (predict m rows (g, a)) =
       Ok (map (fun x => if Fge (net w x) t then c1 else c0) rows)).
  { intros w t c0 c1 rest Ew Hw Et Ec.
    by rewrite (predict_outcome m rows g a w t _ Ew Hw Et Ec). }
  split; [|exact Hrun]. split.
  - intros [out E].
    unfold predict, net_input, bind, attr, lift, ret, raise in E. cbn in E.
    destruct (w_ a) as [w|] eqn:Ew; [|discriminate]. cbn in E.
    destruct (net_input_rows w m rows) as [sc|e] eqn:En; [|discriminate].
    apply net_input_rows_Ok_inv in En. cbn in E.
    destruct (thres_ a) as [t|] eqn:Et; [|discriminate]. cbn in E.
    destruct (classes_ a) as [cls|] eqn:Ec; [|discriminate]. cbn in E.
    destruct cls as [|c0 [|c1 rest]]; try discriminate.
    exists w, t, c0, c1, rest. auto.
  - intros (w & t & c0 & c1 & rest & Ew & Hw & Et & Ec).
    rewrite (Hrun w t c0 c1 rest Ew Hw Et Ec). by eexists.
Qed.

(** A fit that raises the label-domain error on a fitted instance leaves it
    predicting with the rejected labels: the two smallest distinct values of
    the rejected targets take the place of the label pair, and with fewer
    than two distinct values [predict] raises IndexError. *)
Theorem predict_after_rejected_fit X y iw (s : world F G) m rows w t :
  snd (fit X y iw s) = Raise LabelError ->
  w_ (snd s) = Some w -> length w = S m -> thres_ (snd s) = Some t ->
  forall g : G,
    predict m rows (g, snd (fst (fit X y iw s))) =
    ((g, snd (fst (fit X y iw s))),
     match np_unique y with
     | c0 :: c1 :: _ =>
         Ok (map (fun x => if Fge (net w x) t then c1 else c0) rows)
     | _ => Raise IndexError
     end).
Proof.
  intros E Ew Hw Et g.
  destruct X as [v|n xs]; [discriminate|].
  destruct (labels_accepted y) eqn:Hacc.
  - destruct (fit (Arr2 n xs) y iw s) as [s' r] eqn:Ef.
    apply (fit_accepted_frame _ _ _ _ _ _ _ Hacc) in Ef as [R _].
    cbn in E. contradiction.
  - rewrite (fit_rejected _ _ _ _ _ Hacc). cbn [fst snd].
    by apply predict_outcome.
Qed.

End PredictAnywhere.

(** ** An epoch that fails *)

Section FailedEpoch.
Context {F G : Type} `{Float64 F} `{NumPy F G}.
Local Open Scope monad_scope.

Lemma sgd_sample_Raise cost x t (s s' : world F G) e :
  sgd_sample cost x t s = (s', Raise e) -> s' = s.
Proof.
  destruct s as [g a].
  destruct (w_ a) as [w|] eqn:Ew.
  - destruct (decide (length w = S (length x))) as [Hw|Hw].
    + rewrite (sgd_sample_run cost x t g a w Ew Hw). discriminate.
    + unfold sgd_sample, net_input1, bind, attr, lift. cbn. rewrite Ew. cbn.
      unfold net_input_row.
      destruct (Nat.eqb_spec (length x) (length (tail w))) as [E|E].
      * destruct w as [|w0 ws]; [by intros [= <- _]|]. cbn in *. lia.
      * by intros [= <- _].
  - unfold sgd_sample, net_input1, bind, attr. cbn. rewrite Ew.
    by intros [= <- _].
Qed.

(** An epoch that raises has written nothing.  Batch gradient descent makes
    all its checks before its two updates; stochastic gradient descent on a
    rectangular table can fail on its first sample only. *)
Theorem failed_epoch_changes_nothing n rows y (s s' : world F G) e :
  (gd_epoch n rows y s = (s', Raise e) -> s' = s) /\
  (rectangular n rows -> sgd_epoch rows y s = (s', Raise e) -> s' = s).
Proof.
  split.
  - destruct s as [g a].
    unfold gd_epoch, activation, net_input, bind at 1, bind at 1, attr, lift.
    cbn [snd].
    destruct (w_ a) as [w|] eqn:Ew; [|by intros [= <- _]].
    destruct (net_input_rows w n rows) as [sc|e1] eqn:En;
      [|by intros [= <- _]].
    pose proof (net_input_rows_Ok_inv w n rows sc En) as Hw.
    unfold bind at 1, lift.
    destruct (np_sub (map of_Z y) sc) as [errors|e1]; [|by intros [= <- _]].
    unfold bind at 1, self, bind at 1, lift. cbn [snd].
    unfold np_dot_mv.
    destruct (length rows =? length errors)%nat; [|by intros [= <- _]].
    unfold bind at 1, iadd_w_tail, bind, attr, lift, modify. cbn.
    rewrite Ew. cbn. unfold np_iadd, mat_vec, transpose.
    rewrite !length_map, length_seq.
    destruct w as [|w0 ws]; [discriminate|]. cbn in Hw |- *.
    injection Hw as Hw. rewrite Hw, Nat.eqb_refl. cbn. discriminate.
  - intros Hrect. unfold sgd_epoch.
    destruct (combine rows y) as [|[x t] rest] eqn:Ec; [discriminate|].
    cbn [sgd_samples]. unfold bind at 1.
    destruct (sgd_sample F0 x t s) as [s1 [c1|e1]] eqn:E1.
    + intros E. exfalso.
      destruct (sgd_sample_Ok_inv _ _ _ _ _ _ E1) as (w & Ew & Hw).
      pose proof (rectangular_combine n rows y Hrect) as Hall.
      rewrite Ec in Hall. pose proof (Forall_inv Hall) as Hx. cbn in Hx.
      assert (Hw' : length w = S n) by by rewrite Hw, Hx.
      destruct s as [g a]. cbn in Ew.
      destruct (sgd_samples_run n ((x, t) :: rest) F0 g a w Ew Hw' Hall)
        as [Erun _].
      cbn [sgd_samples] in Erun. unfold bind at 1 in Erun.
      rewrite E1 in Erun. rewrite Erun in E. discriminate.
    + intros [= <- _]. by apply sgd_sample_Raise in E1.
Qed.

End FailedEpoch.

(** ** Which errors a fit raises, and which random numbers it draws *)

Section Tame.
Context {F G : Type} `{Float64 F} `{NumPy F G}.
Local Open Scope monad_scope.

Lemma tame_ret {A} (a : A) : tame (F:=F) (G:=G) (ret a).
Proof. intros s. split; [reflexivity|discriminate]. Qed.

Lemma tame_lift {A} (r : result A) :
  (forall e, r = Raise e -> epoch_error e) -> tame (F:=F) (G:=G) (lift r).
Proof. intros Hr s. split; [reflexivity|exact Hr]. Qed.

Lemma tame_self : tame (F:=F) (G:=G) self.
Proof. intros s. split; [reflexivity|discriminate]. Qed.

Lemma tame_modify f : tame (F:=F) (G:=G) (modify f).
Proof. intros s. split; [reflexivity|discriminate]. Qed.

Lemma tame_attr {A} (get : Adaline F -> option A) : tame (G:=G) (attr get).
Proof.
  intros s. unfold attr. destruct (get (snd s)); cbn.
  - split; [reflexivity|discriminate].
  - split; [reflexivity|]. intros e [= <-]. by left.
Qed.

Lemma tame_bind {A B} (c : Py F G A) (k : A -> Py F G B) :
  tame c -> (forall a, tame (k a)) -> tame (bind c k).
Proof.
  intros Hc Hk s. unfold bind. destruct (Hc s) as [Hg He].
  destruct (c s) as [s1 [a|e]]; cbn in *.
  - destruct (Hk a s1) as [Hg' He']. split; [congruence|exact He'].
  - split; [exact Hg|]. intros e' [= <-]. by apply He.
Qed.

Lemma np_sub_error (y v : list F) e : np_sub y v = Raise e -> epoch_error e.
Proof.
  unfold np_sub. destruct (length y =? length v)%nat; [discriminate|].
  destruct v as [|b [|? ?]]; try discriminate;
    destruct y as [|a [|? ?]]; try discriminate;
    intros [= <-]; right; by left.
Qed.

Lemma np_iadd_error (a d : list F) e : np_iadd a d = Raise e -> epoch_error e.
Proof.
  unfold np_iadd. destruct (length d =? length a)%nat; [discriminate|].
  destruct d as [|x [|? ?]]; try discriminate; intros [= <-]; right; by left.
Qed.

Lemma np_dot_mv_error c (A : list (list F)) v e :
  np_dot_mv c A v = Raise e -> epoch_error e.
Proof.
  unfold np_dot_mv. destruct (c =? length v)%nat; [discriminate|].
  intros [= <-]. right; by left.
Qed.

Lemma net_input_rows_error (w : list F) n rows e :
  net_input_rows w n rows = Raise e -> epoch_error e.
Proof.
  unfold net_input_rows, np_dot_mv, res_bind.
  destruct (n =? length (tail w))%nat; [destruct w|]; try discriminate;
    intros [= <-]; [right; by right|right; by left].
Qed.

Lemma net_input_row_error (w x : list F) e :
  net_input_row w x = Raise e -> epoch_error e.
Proof.
  unfold net_input_row.
  destruct (length x =? length (tail w))%nat; [destruct w|]; try discriminate;
    intros [= <-]; [right; by right|right; by left].
Qed.

Lemma tame_iadd_w_tail d : tame (G:=G) (iadd_w_tail d).
Proof.
  unfold iadd_w_tail.
  apply tame_bind; [apply tame_attr|intros w].
  apply tame_bind; [apply tame_lift, np_iadd_error|intros t].
  apply tame_modify.
Qed.

Lemma tame_iadd_w_0 c : tame (G:=G) (iadd_w_0 c).
Proof.
  unfold iadd_w_0.
  apply tame_bind; [apply tame_attr|intros [|w0 ws]].
  - intros s. split; [reflexivity|]. intros e [= <-]. right; by right.
  - apply tame_modify.
Qed.

Lemma tame_gd_epoch n rows y : tame (G:=G) (gd_epoch n rows y).
Proof.
  unfold gd_epoch, activation, net_input.
  apply tame_bind.
  { apply tame_bind; [apply tame_attr|intros w].
    apply tame_lift, net_input_rows_error. }
  intros y_val.
  apply tame_bind; [apply tame_lift, np_sub_error|intros errors].
  apply tame_bind; [apply tame_self|intros a].
  apply tame_bind; [apply tame_lift, np_dot_mv_error|intros g].
  apply tame_bind; [apply tame_iadd_w_tail|intros _].
  apply tame_bind; [apply tame_self|intros a'].
  apply tame_bind; [apply tame_iadd_w_0|intros _].
  apply tame_ret.
Qed.

Lemma tame_sgd_samples samples :
  forall cost, tame (G:=G) (sgd_samples cost samples).
Proof.
  induction samples as [|[xi yi] rest IH]; intros cost; cbn.
  - apply tame_ret.
  - apply tame_bind; [|intros cost'; apply IH].
    unfold sgd_sample, net_input1.
    apply tame_bind.
    { apply tame_bind; [apply tame_attr|intros w].
      apply tame_lift, net_input_row_error. }
    intros yi_val.
    apply tame_bind; [apply tame_self|intros a].
    apply tame_bind; [apply tame_iadd_w_tail|intros _].
    apply tame_bind; [apply tame_self|intros a'].
    apply tame_bind; [apply tame_iadd_w_0|intros _].
    apply tame_ret.
Qed.

Lemma tame_append_cost (c : F) : tame (G:=G) (append_cost c).
Proof.
  unfold append_cost.
  apply tame_bind; [apply tame_attr|intros l]. apply tame_modify.
Qed.

Lemma take_idx_error {A} (l : list A) r e :
  take_idx l r = Raise e -> e = IndexError.
Proof. unfold take_idx. destruct (mapM _ r); [discriminate|]. by intros [= <-]. Qed.

(** The data of an epoch: a shuffle fails with IndexError only, and without
    the shuffle flag nothing is drawn. *)
Lemma epoch_data_outcome rows y (s s1 : world F G) r :
  (a <- self ;; if shuffle a then _shuffle rows y else ret (rows, y)) s
    = (s1, r) ->
  (forall e, r = Raise e -> e = IndexError) /\
  (shuffle (snd s) = false -> s1 = s).
Proof.
  rewrite bind_self. destruct (shuffle (snd s)).
  - unfold _shuffle, bind, permutation, lift, ret.
    destruct (random_permutation (fst s) (length y)) as [p g']. cbn.
    destruct (take_idx rows p) as [rows'|e1] eqn:Er; cbn.
    + destruct (take_idx y p) as [y'|e2] eqn:Ey; cbn; intros [= <- <-].
      * split; [discriminate|discriminate].
      * split; [|discriminate]. intros e [= <-]. by eapply take_idx_error.
    + intros [= <- <-]. split; [|discriminate].
      intros e [= <-]. by eapply take_idx_error.
  - intros [= <- <-]. split; [discriminate|reflexivity].
Qed.

Lemma epoch_cost_outcome n (Xy : list (list F) * list Z)
    (s1 s2 : world F G) r :
  solver (snd s1) <> NormalEquation ->
  match solver (snd s1) with
  | GD => gd_epoch n (fst Xy) (snd Xy)
  | SGD => sgd_epoch (fst Xy) (snd Xy)
  | NormalEquation => raise NameError
  end s1 = (s2, r) ->
  fst s2 = fst s1 /\ (forall e, r = Raise e -> epoch_error e) /\
  stable s1 s2.
Proof.
  intros Hso E. destruct (solver (snd s1)); [done| |].
  - destruct (tame_gd_epoch n (fst Xy) (snd Xy) s1) as [Hg He].
    destruct (quiet_gd_epoch n (fst Xy) (snd Xy) s1) as [Hq _].
    rewrite E in Hg, He, Hq. auto.
  - destruct (tame_sgd_samples (combine (fst Xy) (snd Xy)) F0 s1) as [Hg He].
    destruct (quiet_sgd_samples (combine (fst Xy) (snd Xy)) F0 s1) as [Hq _].
    unfold sgd_epoch in E. rewrite E in Hg, He, Hq. auto.
Qed.

(** The loop of an iterative solver raises errors of the arithmetic only,
    never NameError, and draws nothing unless it shuffles. *)
Lemma epochs_loop_tame k : forall n rows y (s s' : world F G) r,
  solver (snd s) <> NormalEquation ->
  epochs_loop k n rows y s = (s', r) ->
  (forall e, r = Raise e -> epoch_error e) /\
  (shuffle (snd s) = false -> fst s' = fst s).
Proof.
  induction k as [|k IH]; intros n rows y s s' r Hso E.
  { cbn in E. injection E as <- <-. split; [discriminate|reflexivity]. }
  change (epochs_loop (S k) n rows y) with
    (Xy <- (a <- self ;; if shuffle a then _shuffle rows y else ret (rows, y)) ;;
     cost <- (a <- self ;;
              match solver a with
              | GD => gd_epoch n (fst Xy) (snd Xy)
              | SGD => sgd_epoch (fst Xy) (snd Xy)
              | NormalEquation => raise NameError
              end) ;;
     append_cost cost ;;; epochs_loop k n (fst Xy) (snd Xy)) in E.
  unfold bind at 1 in E.
  destruct (quiet_epoch_data rows y s) as [(C1 & _ & _) _].
  destruct ((a <- self ;; if shuffle a then _shuffle rows y else ret (rows, y)) s)
    as [s1 [Xy|e1]] eqn:Ed; cbn in C1;
    apply epoch_data_outcome in Ed as [Herr1 Hgen1].
  2:{ injection E as <- <-. split.
      - intros e [= <-]. rewrite (Herr1 e1 eq_refl). right; by right.
      - intros Hsh. by rewrite (Hgen1 Hsh). }
  destruct C1 as (_ & _ & Csh1 & Cso1 & _).
  unfold bind at 1 in E. rewrite bind_self in E.
  destruct (match solver (snd s1) with
            | GD => gd_epoch n (fst Xy) (snd Xy)
            | SGD => sgd_epoch (fst Xy) (snd Xy)
            | NormalEquation => raise NameError
            end s1) as [s2 [cost|e2]] eqn:Est;
    apply epoch_cost_outcome in Est as (Hgen2 & Herr2 & Hq); try congruence.
  2:{ injection E as <- <-. split.
      - intros e [= <-]. by apply Herr2.
      - intros Hsh. rewrite Hgen2. by rewrite (Hgen1 Hsh). }
  destruct Hq as ((_ & _ & Csh2 & Cso2 & _) & _ & _).
  unfold bind at 1 in E.
  destruct (tame_append_cost cost s2) as [Hgen3 Herr3].
  destruct s2 as [g2 a2]. rewrite append_cost_run in E, Hgen3, Herr3.
  destruct (cost_ a2) as [l2|]; cbn in Hgen3, Herr3.
  2:{ injection E as <- <-. split.
      - intros e [= <-]. by left.
      - intros Hsh. cbn in *. by rewrite Hgen2, (Hgen1 Hsh). }
  apply IH in E as [Herr Hgen]; [|cbn in *; congruence].
  split; [exact Herr|].
  intros Hsh. rewrite Hgen; cbn in *; [|congruence].
  by rewrite Hgen2, (Hgen1 Hsh).
Qed.

(** The errors of [fit], branch by branch.  Rank-1 features give the shape
    error and rejected labels the label-domain error; past validation the
    normal equation raises the singular-matrix error when the inverse does
    not exist and an alignment error when targets and rows differ in
    number, and the iterative solvers raise errors of the arithmetic only.
    [fit] never raises the constructor's error nor reads the local [cost]
    before it is assigned. *)
Theorem fit_errors X y iw (s : world F G) e :
  snd (fit X y iw s) = Raise e ->
  e <> ConfigError /\ e <> NameError /\
  match X with
  | Arr1 _ => e = ShapeError
  | Arr2 n rows =>
      if labels_accepted y then
        match solver (snd s) with
        | NormalEquation =>
            (e = LinAlgError /\ closed_form (G:=G) n rows y = None) \/
            (e = AlignError /\ length rows <> length y)
        | _ => epoch_error e
        end
      else e = LabelError
  end.
Proof.
  intros E.
  assert (Hep : forall e', epoch_error e' ->
                  e' <> ConfigError /\ e' <> NameError).
  { intros e' [->|[->| ->]]; split; discriminate. }
  destruct X as [v|n rows].
  { cbn in E. injection E as <-. repeat split; discriminate. }
  destruct (labels_accepted y) eqn:Hacc.
  2:{ rewrite (fit_rejected _ _ _ _ _ Hacc) in E. cbn in E.
      injection E as <-. repeat split; discriminate. }
  rewrite (fit_accepted _ _ _ _ _ Hacc) in E.
  destruct (start_state_config iw n y s) as (_ & Sp & _ & Sso & _).
  set (s0 := start_state iw n y s) in *.
  destruct (solver (snd s)) eqn:Eso.
  - rewrite (solve_normal_equation_run n rows y s0 Sso) in E.
    destruct (closed_form n rows y) as [w|] eqn:Ecf.
    + destruct (Nat.eqb_spec (length rows) (length y)) as [El|El];
        [discriminate|].
      cbn in E. injection E as <-.
      repeat split; try discriminate. right. auto.
    + cbn in E. injection E as <-. repeat split; try discriminate.
      left. auto.
  - unfold solve in E. rewrite bind_self, Sso in E.
    destruct (epochs_loop (epochs (snd s0)) n rows y s0) as [s' r] eqn:El.
    apply epochs_loop_tame in El as [Herr _]; [|congruence].
    cbn in E. subst r. specialize (Herr e eq_refl).
    destruct (Hep e Herr). auto.
  - unfold solve in E. rewrite bind_self, Sso in E.
    destruct (epochs_loop (epochs (snd s0)) n rows y s0) as [s' r] eqn:El.
    apply epochs_loop_tame in El as [Herr _]; [|congruence].
    cbn in E. subst r. specialize (Herr e eq_refl).
    destruct (Hep e Herr). auto.
Qed.

(** Without the shuffle flag the only random numbers a fit draws are the
    [1 + n] of a random weight initialisation: with zero-init, with
    [init_weights] false, or on rejected input the generator is left as it
    was, whatever the solver and the outcome. *)
Theorem fit_random_draws X y iw (s : world F G) :
  shuffle (snd s) = false ->
  fst (fst (fit X y iw s)) =
  match X with
  | Arr1 _ => fst s
  | Arr2 n _ =>
      if labels_accepted y && iw && negb (zero_init_weight (snd s))
      then snd (ranf_from (F:=F) (1 + n) (fst s))
      else fst s
  end.
Proof.
  intros Hsh. destruct X as [v|n rows]; [reflexivity|].
  destruct (labels_accepted y) eqn:Hacc;
    [|by rewrite (fit_rejected _ _ _ _ _ Hacc)].
  rewrite (fit_accepted _ _ _ _ _ Hacc).
  destruct (start_state_config iw n y s) as (_ & _ & Ssh & Sso & _).
  destruct (start_state_weights iw n y s) as [_ Sg].
  set (s0 := start_state iw n y s) in *.
  assert (Hg0 : fst s0 = if true && iw && negb (zero_init_weight (snd s))
                         then snd (ranf_from (F:=F) (1 + n) (fst s))
                         else fst s).
  { rewrite Sg. unfold initial_weights.
    destruct iw; [|reflexivity].
    destruct (zero_init_weight (snd s)); [reflexivity|].
    cbn [andb negb]. by destruct (ranf_from (1 + n) (fst s)). }
  rewrite <- Hg0.
  destruct (solver (snd s)) eqn:Eso.
  - rewrite (solve_normal_equation_run n rows y s0 Sso).
    destruct (closed_form n rows y); [|reflexivity].
    destruct (length rows =? length y)%nat; reflexivity.
  - unfold solve. rewrite bind_self, Sso.
    destruct (epochs_loop (epochs (snd s0)) n rows y s0) as [s' r] eqn:El.
    apply epochs_loop_tame in El as [_ Hgen]; [|congruence].
    cbn. apply Hgen. congruence.
  - unfold solve. rewrite bind_self, Sso.
    destruct (epochs_loop (epochs (snd s0)) n rows y s0) as [s' r] eqn:El.
    apply epochs_loop_tame in El as [_ Hgen]; [|congruence].
    cbn. apply Hgen. congruence.
Qed.

End Tame.

(** ** The shuffle *)

Section Shuffle.
Context {F G : Type} `{Float64 F} `{NumPy F G} `{!NumPyLaws (F:=F) (G:=G)}.

Lemma combine_map_same {A B} (f : nat -> A) (g : nat -> B) (r : list nat) :
  combine (map f r) (map g r) = map (fun i => (f i, g i)) r.
Proof. induction r as [|i r IH]; cbn; [reflexivity|by rewrite IH]. Qed.

Lemma combine_by_index {A B} (d1 : A) (d2 : B) (ys : list B) :
  forall xs : list A, (length ys <= length xs)%nat ->
  map (fun i => (nth i xs d1, nth i ys d2)) (seq 0 (length ys))
    = combine xs ys.
Proof.
  induction ys as [|b ys IH]; intros xs Hle.
  - by destruct xs.
  - destruct xs as [|a xs]; [cbn in Hle; lia|].
    cbn [length seq map combine nth]. f_equal.
    rewrite <- seq_shift, map_map. cbn [nth].
    apply IH. cbn in Hle. lia.
Qed.

Lemma take_idx_Ok_bound {A} (l l' : list A) (r : list nat) :
  take_idx l r = Ok l' -> Forall (fun i => (i < length l)%nat) r.
Proof.
  unfold take_idx. destruct (mapM _ r) as [k|] eqn:Em; [|discriminate].
  intros _. apply mapM_Some_1 in Em.
  induction Em as [|i x r k Hix _ IH]; constructor; [|exact IH].
  by eapply lookup_lt_Some.
Qed.

(** [_shuffle] rearranges both arrays by one permutation.  When there are at
    least as many rows as targets it returns as many rows and targets as
    there were targets, the pairs (row, target) it returns are a
    rearrangement of the pairs of the input, and only the generator has
    changed; when there are more targets than rows it raises IndexError. *)
Theorem shuffle_in_unison (rows : list (list F)) (y : list Z)
    (s : world F G) :
  ((length y <= length rows)%nat ->
   exists g' rows' y',
     _shuffle rows y s = ((g', snd s), Ok (rows', y')) /\
     length rows' = length y /\ length y' = length y /\
     combine rows' y' ≡ₚ combine rows y) /\
  ((length rows < length y)%nat ->
   snd (_shuffle rows y s) = Raise IndexError /\
   snd (fst (_shuffle rows y s)) = snd s).
Proof.
  pose proof (permutation_perm (fst s) (length y)) as Hp.
  unfold _shuffle, bind, permutation, lift, ret.
  destruct (random_permutation (fst s) (length y)) as [r g']. cbn in Hp |- *.
  split.
  - intros Hle. destruct (perm_indices r (length y) Hp) as [Hl Hr].
    assert (Hr' : Forall (fun i => (i < length rows)%nat) r).
    { eapply Forall_impl; [exact Hr|]. cbn. intros; lia. }
    rewrite (take_idx_run [] rows r Hr'). cbn.
    rewrite (take_idx_run 0 y r Hr). cbn.
    eexists _, _, _. split; [reflexivity|].
    rewrite !length_map. split; [exact Hl|]. split; [exact Hl|].
    rewrite combine_map_same, <- (combine_by_index [] 0 y rows Hle).
    by apply Permutation_map.
  - intros Hlt.
    destruct (take_idx rows r) as [rows'|e] eqn:Er; cbn.
    + exfalso. apply take_idx_Ok_bound in Er.
      rewrite Forall_forall in Er.
      assert (Hin : length rows ∈ r).
      { rewrite Hp. apply elem_of_seq. lia. }
      specialize (Er _ Hin). lia.
    + split; [|reflexivity]. f_equal. by eapply take_idx_error.
Qed.

End Shuffle.

(** ** Fitting again *)

Section Refit.
Context {F G : Type} `{Float64 F} `{NumPy F G}.

(** With [init_weights] true and accepted labels, nothing an earlier fit
    learned survives: two instances with the same hyperparameters, whatever
    their weights, cost histories, label arrays and thresholds, end in the
    same world with the same result. *)
Theorem refit_forgets n rows y (g : G) (a1 a2 : Adaline F) :
  hyperparameters a1 = hyperparameters a2 ->
  labels_accepted y = true ->
  fit (Arr2 n rows) y true (g, a1) = fit (Arr2 n rows) y true (g, a2).
Proof.
  intros Hh Hacc. rewrite !(fit_accepted _ _ _ _ _ Hacc). f_equal.
  destruct a1, a2. unfold hyperparameters in Hh. cbn in Hh.
  injection Hh as -> -> -> -> ->. reflexivity.
Qed.

End Refit.

(** ** Weights or targets that do not fit the features *)

Section Mismatch.
Context {F G : Type} `{Float64 F} `{NumPy F G} `{!NumPyLaws (F:=F) (G:=G)}.
Local Open Scope monad_scope.

Lemma bind_Raise {A B} (c : Py F G A) (k : A -> Py F G B) s s' e :
  c s = (s', Raise e) -> bind c k s = (s', Raise e).
Proof. unfold bind. by intros ->. Qed.

Lemma labels_accepted_two y : labels_accepted y = true -> (2 <= length y)%nat.
Proof.
  destruct y as [|a [|b y]]; [discriminate|discriminate|cbn; lia].
Qed.

(** The data of an epoch on aligned input. *)
Lemma epoch_data_run n rows y (g : G) (a : Adaline F) :
  rectangular n rows -> length y = length rows ->
  exists g1 rows1 y1,
    (a0 <- self ;; if shuffle a0 then _shuffle rows y else ret (rows, y))
      (g, a) = ((g1, a), Ok (rows1, y1)) /\
    rectangular n rows1 /\ length y1 = length rows1 /\
    length y1 = length y.
Proof.
  intros Hrect Hy. rewrite bind_self. cbn [snd]. destruct (shuffle a).
  - destruct (shuffle_run n rows y g a Hrect Hy) as (E & Hr & Hl).
    exists (fst (fst (shuffled g rows y))), (snd (fst (shuffled g rows y))),
           (snd (shuffled g rows y)).
    split; [exact E|]. split; [exact Hr|]. split; [exact Hl|].
    unfold shuffled.
    pose proof (permutation_perm g (length y)) as Hp.
    destruct (random_permutation g (length y)) as [r g']. cbn in *.
    rewrite length_map. by apply perm_indices in Hp as [-> _].
  - exists g, rows, y. auto.
Qed.

(** An epoch on weights that are absent or of the wrong length. *)
Lemma epoch_bad_weights n rows y (g : G) (a : Adaline F) :
  solver a <> NormalEquation ->
  rectangular n rows -> rows <> [] -> y <> [] ->
  (forall w, w_ a = Some w -> length w <> S n) ->
  match solver a with
  | GD => gd_epoch n rows y
  | SGD => sgd_epoch rows y
  | NormalEquation => raise NameError
  end (g, a) = ((g, a), Raise (first_use_error n (w_ a))).
Proof.
  intros Hso Hrect Hrows Hy Hbad. destruct (solver a); [done| |].
  - unfold gd_epoch, activation, net_input, bind, attr, lift. cbn.
    destruct (w_ a) as [w|]; [|reflexivity]. cbn.
    pose proof (Hbad w eq_refl) as Hlen.
    unfold net_input_rows, np_dot_mv, res_bind.
    destruct w as [|w0 ws]; cbn in *.
    + destruct n; reflexivity.
    + destruct (Nat.eqb_spec n (length ws)) as [E|E]; [lia|reflexivity].
  - unfold sgd_epoch.
    destruct rows as [|x rows]; [done|]. destruct y as [|t y]; [done|].
    apply Forall_inv in Hrect.
    cbn [combine sgd_samples]. apply bind_Raise.
    unfold sgd_sample, net_input1, bind, attr, lift. cbn.
    destruct (w_ a) as [w|]; [|reflexivity]. cbn.
    pose proof (Hbad w eq_refl) as Hlen.
    unfold net_input_row. rewrite Hrect.
    destruct w as [|w0 ws]; cbn in *.
    + destruct n; reflexivity.
    + destruct (Nat.eqb_spec n (length ws)) as [E|E]; [lia|reflexivity].
Qed.

(** Continuing ([init_weights] false) on valid data with an iterative solver
    and at least one epoch, from an instance whose weights are absent or do
    not have [1 + n] entries: the fit raises at the first use of the
    weights, AttributeError when there are none, IndexError when the vector
    is empty and the features have no column, and an alignment error
    otherwise; the weights stay as they were and the cost history is left
    empty. *)
Theorem fit_retained_weights_mismatch n rows y (s : world F G) :
  solver (snd s) <> NormalEquation ->
  labels_accepted y = true ->
  rectangular n rows -> length y = length rows ->
  (1 <= epochs (snd s))%nat ->
  (forall w, w_ (snd s) = Some w -> length w <> S n) ->
  snd (fit (Arr2 n rows) y false s) =
    Raise (match w_ (snd s) with
           | None => AttributeError
           | Some [] => if Nat.eqb n 0 then IndexError else AlignError
           | Some _ => AlignError
           end) /\
  w_ (snd (fst (fit (Arr2 n rows) y false s))) = w_ (snd s) /\
  cost_ (snd (fst (fit (Arr2 n rows) y false s))) = Some [].
Proof.
  intros Hso Hacc Hrect Hy Hep Hbad.
  rewrite (fit_accepted _ _ _ _ _ Hacc).
  destruct (start_state_config false n y s) as (_ & Sp & _ & Sso & _).
  destruct (start_state_weights false n y s) as [Sw _].
  pose proof (start_state_cost false n y s) as Sc.
  destruct (start_state false n y s) as [g0 a0]. cbn [fst snd] in *.
  unfold solve. rewrite bind_self. cbn [snd].
  assert (Hso0 : solver a0 <> NormalEquation) by congruence.
  replace (match solver a0 with
           | NormalEquation =>
               w <- _normal_equation n rows y ;; modify (with_w w)
           | _ => epochs_loop (epochs a0) n rows y
           end) with (epochs_loop (epochs a0) n rows y)
    by (destruct (solver a0); done).
  rewrite Sp. destruct (epochs (snd s)) as [|k]; [lia|].
  cbn [epochs_loop]. rewrite bind_self. cbn [snd].
  destruct (epoch_data_run n rows y g0 a0 Hrect Hy)
    as (g1 & rows1 & y1 & Ed & Hrect1 & Hy1 & Hy1').
  rewrite bind_self in Ed. cbn [snd] in Ed.
  rewrite (bind_Ok _ _ _ _ _ Ed). rewrite bind_self. cbn [fst snd].
  pose proof (labels_accepted_two y Hacc) as Htwo.
  assert (Hrows1 : rows1 <> []) by (intros ->; cbn in *; lia).
  assert (Hy1ne : y1 <> []) by (intros ->; cbn in *; lia).
  assert (Hbad0 : forall w, w_ a0 = Some w -> length w <> S n).
  { intros w Ew. apply Hbad. congruence. }
  rewrite (bind_Raise _ _ _ _ _
             (epoch_bad_weights n rows1 y1 g1 a0 Hso0 Hrect1 Hrows1 Hy1ne Hbad0)).
  cbn. unfold first_use_error. by rewrite Sw.
Qed.

(** *** Targets that are not aligned with the rows *)

Lemma gd_epoch_misaligned n rows y (g : G) (a : Adaline F) w :
  w_ a = Some w -> length w = S n ->
  length y <> length rows -> (2 <= length y)%nat ->
  gd_epoch n rows y (g, a) = ((g, a), Raise AlignError).
Proof.
  intros Ew Hw Hne Htwo.
  unfold gd_epoch, activation, net_input, bind, attr, lift, self. cbn.
  rewrite Ew. cbn. rewrite (net_input_rows_run w n rows Hw). cbn.
  unfold np_sub. rewrite !length_map.
  destruct (Nat.eqb_spec (length y) (length rows)) as [E|_]; [done|].
  destruct rows as [|x [|x' rows]]; cbn.
  - destruct y as [|t [|t' y]]; cbn in *; [lia|lia|reflexivity].
  - destruct y as [|t [|t' y]]; cbn in *; [lia|lia|reflexivity].
  - destruct y as [|t [|t' y]]; cbn in *; [lia|lia|reflexivity].
Qed.

Lemma sgd_loop_run n rows y k : forall (g : G) w costs (a : Adaline F),
  solver a = SGD -> shuffle a = false ->
  w_ a = Some w -> length w = S n -> rectangular n rows ->
  cost_ a = Some costs ->
  let T := train (sgd_step (eta a)) false k g rows y w costs in
  epochs_loop k n rows y (g, a) =
    ((fst (fst T), with_cost (snd T) (with_w (snd (fst T)) a)), Ok tt) /\
  length (snd T) = (length costs + k)%nat.
Proof.
  induction k as [|k IH]; intros g w costs a Hso Hsh Ew Hw Hrect Ec T.
  { subst T. cbn. rewrite (with_w_same a w Ew), (with_cost_same a costs Ec).
    split; [reflexivity|lia]. }
  cbn [epochs_loop]. rewrite bind_self. cbn [snd]. rewrite Hsh.
  rewrite bind_ret, bind_self. cbn [fst snd]. rewrite Hso.
  destruct (sgd_epoch_run n rows y g a w Ew Hw Hrect) as [Estep Hw1].
  rewrite (bind_Ok _ _ _ _ _ Estep).
  subst T. cbn [train].
  destruct (sgd_step (eta a) rows y w) as [w1 c] eqn:Est. cbn [fst snd] in *.
  assert (Eapp : append_cost c (g, with_w w1 a) =
                 ((g, with_cost (costs ++ [c]) (with_w w1 a)), Ok tt)).
  { rewrite append_cost_run. cbn. by rewrite Ec. }
  rewrite (bind_Ok _ _ _ _ _ Eapp).
  destruct (IH g w1 (costs ++ [c]) (with_cost (costs ++ [c]) (with_w w1 a)))
    as (Eloop & Hlc); try done.
  cbn in Eloop, Hlc. rewrite Eloop. split; [reflexivity|].
  rewrite Hlc, length_app. cbn. lia.
Qed.

(** Targets whose number differs from the number of rows, without shuffling
    and from weights of the right length.  Batch gradient descent raises an
    alignment error in its first epoch, before any update.  Stochastic
    gradient descent does not notice: it pairs rows and targets as far as
    both last, and the fit succeeds with one cost per epoch. *)
Theorem misaligned_targets n rows y iw (s : world F G) w0 :
  labels_accepted y = true ->
  shuffle (snd s) = false ->
  length y <> length rows ->
  w_ (snd (start_state iw n y s)) = Some w0 -> length w0 = S n ->
  (solver (snd s) = GD -> (1 <= epochs (snd s))%nat ->
   snd (fit (Arr2 n rows) y iw s) = Raise AlignError /\
   w_ (snd (fst (fit (Arr2 n rows) y iw s))) = Some w0 /\
   cost_ (snd (fst (fit (Arr2 n rows) y iw s))) = Some []) /\
  (solver (snd s) = SGD -> rectangular n rows ->
   let T := train (sgd_step (eta (snd s))) false (epochs (snd s))
                  (fst (start_state iw n y s)) rows y w0 [] in
   snd (fit (Arr2 n rows) y iw s) = Ok tt /\
   w_ (snd (fst (fit (Arr2 n rows) y iw s))) = Some (snd (fst T)) /\
   cost_ (snd (fst (fit (Arr2 n rows) y iw s))) = Some (snd T) /\
   length (snd T) = epochs (snd s)).
Proof.
  intros Hacc Hsh Hne Ew Hw.
  rewrite (fit_accepted _ _ _ _ _ Hacc).
  destruct (start_state_config iw n y s) as (Se & Sp & Ssh & Sso & _).
  pose proof (start_state_cost iw n y s) as Sc.
  destruct (start_state iw n y s) as [g0 a0]. cbn [fst snd] in *.
  unfold solve. rewrite bind_self. cbn [snd]. rewrite Sso, Sp.
  split.
  - intros Hso Hep. rewrite Hso.
    destruct (epochs (snd s)) as [|k]; [lia|].
    cbn [epochs_loop]. rewrite bind_self. cbn [snd].
    rewrite Ssh, Hsh, bind_ret, bind_self. cbn [fst snd]. rewrite Sso, Hso.
    rewrite (bind_Raise _ _ _ _ _
               (gd_epoch_misaligned n rows y g0 a0 w0 Ew Hw Hne
                  (labels_accepted_two y Hacc))).
    cbn. auto.
  - intros Hso Hrect. rewrite Hso.
    destruct (sgd_loop_run n rows y (epochs (snd s)) g0 w0 [] a0)
      as (Eloop & Hlc); try congruence.
    cbn zeta in Eloop, Hlc. rewrite Se in Eloop, Hlc.
    rewrite Eloop. cbn. auto.
Qed.

End Mismatch.

(** ** Continuing a training *)

Section Continue.
Context {F G : Type} `{Float64 F} `{NumPy F G} `{!NumPyLaws (F:=F) (G:=G)}.

(** The costs a run starts with are a prefix of the costs it ends with and
    have no influence on the rest. *)
Lemma train_costs step sh k : forall (g : G) rows y (w c : list F),
  train step sh k g rows y w c =
  (fst (train step sh k g rows y w []),
   c ++ snd (train step sh k g rows y w [])).
Proof.
  induction k as [|k IH]; intros g rows y w c.
  - cbn. by rewrite app_nil_r.
  - cbn [train].
    destruct (if sh then shuffled g rows y else (g, rows, y))
      as [[g1 rows1] y1].
    destruct (step rows1 y1 w) as [w1 c1].
    rewrite (IH g1 rows1 y1 w1 (c ++ [c1])), (IH g1 rows1 y1 w1 ([] ++ [c1])).
    cbn. by rewrite <- app_assoc.
Qed.

(** Without shuffling, [k1 + k2] epochs are [k1] epochs followed by [k2]. *)
Lemma train_split step k1 k2 : forall (g : G) rows y (w c : list F),
  train step false (k1 + k2) g rows y w c =
  train step false k2 g rows y
        (snd (fst (train step false k1 g rows y w c)))
        (snd (train step false k1 g rows y w c)).
Proof.
  induction k1 as [|k1 IH]; intros g rows y w c; [reflexivity|].
  cbn [Nat.add train]. destruct (step rows y w) as [w1 c1]. apply IH.
Qed.

Lemma train_generator step k : forall (g : G) rows y (w c : list F),
  fst (fst (train step false k g rows y w c)) = g.
Proof.
  induction k as [|k IH]; intros g rows y w c; [reflexivity|].
  cbn [train]. destruct (step rows y w) as [w1 c1]. apply IH.
Qed.

(** Fitting again with [init_weights] false continues the training: without
    shuffling, on valid data, a fit followed by a second fit that keeps the
    weights ends with the weights of a single run of twice as many epochs.
    The cost history holds the costs of the second fit only, which are the
    second half of the costs of the long run. *)
Theorem fit_continues n rows y iw (s : world F G) w0 :
  solver (snd s) <> NormalEquation ->
  shuffle (snd s) = false ->
  labels_accepted y = true ->
  rectangular n rows -> length y = length rows ->
  w_ (snd (start_state iw n y s)) = Some w0 -> length w0 = S n ->
  let k := epochs (snd s) in
  let s1 := fst (fit (Arr2 n rows) y iw s) in
  let T := train (solver_step (solver (snd s)) (eta (snd s)) n) false (k + k)
                 (fst (start_state iw n y s)) rows y w0 [] in
  snd (fit (Arr2 n rows) y false s1) = Ok tt /\
  w_ (snd (fst (fit (Arr2 n rows) y false s1))) = Some (snd (fst T)) /\
  cost_ (snd (fst (fit (Arr2 n rows) y false s1))) = Some (drop k (snd T)).
Proof.
  intros Hso Hsh Hacc Hrect Hy Ew Hw k s1 T.
  destruct (fit_iterative n rows y iw s w0 Hso Hacc Hrect Hy Ew Hw)
    as (E1 & Hw1 & Hc1).
  rewrite Hsh in E1, Hw1, Hc1.
  set (step := solver_step (solver (snd s)) (eta (snd s)) n) in *.
  set (g0 := fst (start_state iw n y s)) in *.
  set (T1 := train step false (epochs (snd s)) g0 rows y w0 []) in *.
  destruct (start_state_config iw n y s) as (Se & Sp & Ssh & Sso & _).
  assert (Es1 : s1 = (fst (fst T1),
                      with_cost (snd T1)
                        (with_w (snd (fst T1)) (snd (start_state iw n y s)))))
    by (unfold s1; by rewrite E1).
  assert (Hcfg : solver (snd s1) = solver (snd s) /\
                 eta (snd s1) = eta (snd s) /\
                 shuffle (snd s1) = false /\
                 epochs (snd s1) = epochs (snd s)).
  { rewrite Es1. cbn. rewrite Se, Sp, Ssh, Sso. auto. }
  destruct Hcfg as (Cso & Ce & Csh & Cp).
  destruct (start_state_weights false n y s1) as [Sw2 Sg2].
  assert (Ew2 : w_ (snd (start_state false n y s1)) = Some (snd (fst T1))).
  { rewrite Sw2, Es1. reflexivity. }
  assert (Hso2 : solver (snd s1) <> NormalEquation) by by rewrite Cso.
  destruct (fit_iterative n rows y false s1 (snd (fst T1)) Hso2 Hacc Hrect Hy
              Ew2 Hw1) as (E2 & _ & _).
  rewrite Cso, Ce, Csh, Cp, Sg2 in E2. fold step in E2.
  assert (Eg1 : fst s1 = g0).
  { rewrite Es1. cbn. apply train_generator. }
  rewrite Eg1 in E2.
  rewrite E2. cbn.
  split; [reflexivity|].
  assert (ET : T = train step false k g0 rows y (snd (fst T1)) (snd T1))
    by (unfold T; apply train_split).
  rewrite (train_costs step false k g0 rows y (snd (fst T1)) (snd T1)) in ET.
  rewrite ET. cbn. split; [reflexivity|].
  f_equal.
  pose proof (drop_app_length (snd T1)
                (snd (train step false k g0 rows y (snd (fst T1)) []))) as Hd.
  rewrite Hc1 in Hd. unfold k in *. by rewrite Hd.
Qed.

End Continue.

(** ** The further properties at concrete inputs *)

Import MoreExamples.

Lemma constructor_outcome_witness :
  Adaline_init (1 # 100)%Q 50 "sgd" (Some (-1)) false false 7%nat
    = (7%nat, Raise SeedError) /\
  fst (Adaline_init (1 # 100)%Q 50 "newton" (Some 3) false false 7%nat)
    = 3%nat /\
  snd (Adaline_init (1 # 100)%Q 50 "newton" (Some 3) false false 7%nat)
    = Raise ConfigError.
Proof.
  destruct (constructor_outcome (1 # 100)%Q 50 "sgd" (Some (-1)) false false
              7%nat) as (Hbad & _).
  destruct (constructor_outcome (1 # 100)%Q 50 "newton" (Some 3) false false
              7%nat) as (_ & Hok & _).
  destruct (Hok eq_refl) as (Hg & Hc).
  split; [exact (Hbad eq_refl)|]. split; [exact Hg|].
  apply Hc. repeat split; discriminate.
Defined.

Lemma predict_after_rejected_fit_witness :
  snd (fit (Arr2 2 X42) [1; 2; 1; 2] true fitted42) = Raise LabelError /\
  snd (predict 2 X42 fitted42) = Ok [0; 0; 1; 1] /\
  snd (predict 2 X42 (5%nat, snd rejected42)) = Ok [1; 1; 2; 2].
Proof.
  assert (E : snd (fit (Arr2 2 X42) [1; 2; 1; 2] true fitted42)
              = Raise LabelError) by (vm_compute; reflexivity).
  split; [exact E|]. split; [vm_compute; reflexivity|].
  unfold rejected42.
  rewrite (predict_after_rejected_fit (Arr2 2 X42) [1; 2; 1; 2] true fitted42
             2 X42 [301 # 10000; 217 # 2000; 37 # 400]%Q (1 # 2)%Q E).
  - vm_compute. reflexivity.
  - vm_compute. reflexivity.
  - reflexivity.
  - vm_compute. reflexivity.
Defined.

Lemma failed_epoch_changes_nothing_witness :
  gd_epoch 1 X4 y4 fitted42 = (fitted42, Raise AlignError) /\
  sgd_epoch X4 y4 fitted42 = (fitted42, Raise AlignError).
Proof.
  assert (Eg : exists s', gd_epoch 1 X4 y4 fitted42 = (s', Raise AlignError))
    by (eexists; vm_compute; reflexivity).
  assert (Es : exists s', sgd_epoch X4 y4 fitted42 = (s', Raise AlignError))
    by (eexists; vm_compute; reflexivity).
  destruct Eg as [s1 Eg]. destruct Es as [s2 Es].
  destruct (failed_epoch_changes_nothing 1 X4 y4 fitted42 s1 AlignError)
    as [Hg _].
  destruct (failed_epoch_changes_nothing 1 X4 y4 fitted42 s2 AlignError)
    as [_ Hs].
  rewrite Eg, Es. rewrite (Hg Eg). rewrite (Hs ltac:(repeat constructor) Es).
  split; reflexivity.
Defined.

Lemma fit_retained_weights_mismatch_witness :
  length <$> w_ (snd fitted42) = Some 3%nat /\
  snd (fit (Arr2 0 [[]; []]) [0; 1] false
           (0%nat, with_w [] (fresh SGD 1 false true))) = Raise IndexError /\
  snd (fit (Arr2 1 X4) y4 false fitted42) = Raise AlignError /\
  w_ (snd (fst (fit (Arr2 1 X4) y4 false fitted42))) = w_ (snd fitted42) /\
  cost_ (snd (fst (fit (Arr2 1 X4) y4 false fitted42))) = Some [].
Proof.
  split; [vm_compute; reflexivity|].
  split.
  { destruct (fit_retained_weights_mismatch (NumPyLaws0:=Q_laws)
                0 [[]; []] [0; 1]
                (0%nat, with_w [] (fresh SGD 1 false true))) as (E & _).
    - discriminate.
    - reflexivity.
    - repeat constructor.
    - reflexivity.
    - cbn. lia.
    - intros w [= <-]. discriminate.
    - exact E. }
  destruct (fit_retained_weights_mismatch (NumPyLaws0:=Q_laws)
              1 X4 y4 fitted42) as (E & Hw & Hc).
  - vm_compute. discriminate.
  - reflexivity.
  - repeat constructor.
  - reflexivity.
  - vm_compute. lia.
  - intros w Ew. vm_compute in Ew. injection Ew as <-. cbn. lia.
  - split; [|split; [exact Hw|exact Hc]].
    rewrite E. vm_compute. reflexivity.
Defined.

Lemma misaligned_targets_witness :
  length y3 <> length X42 /\
  snd (fit (Arr2 2 X42) y3 true (0%nat, fresh GD 2 false true))
    = Raise AlignError /\
  snd (fit (Arr2 2 X42) y3 true (0%nat, fresh SGD 2 false true)) = Ok tt /\
  length <$> cost_ (snd (fst (fit (Arr2 2 X42) y3 true
                                  (0%nat, fresh SGD 2 false true))))
    = Some 2%nat.
Proof.
  assert (Hne : length y3 <> length X42) by (cbn; lia).
  split; [exact Hne|].
  destruct (misaligned_targets 2 X42 y3 true
              (0%nat, fresh GD 2 false true) [0; 0; 0]%Q) as [Hgd _].
  { reflexivity. } { reflexivity. } { exact Hne. }
  { vm_compute; reflexivity. } { reflexivity. }
  destruct (misaligned_targets 2 X42 y3 true
              (0%nat, fresh SGD 2 false true) [0; 0; 0]%Q) as [_ Hsgd].
  { reflexivity. } { reflexivity. } { exact Hne. }
  { vm_compute; reflexivity. } { reflexivity. }
  destruct (Hgd eq_refl ltac:(cbn; lia)) as (Eg & _).
  assert (Hrect : rectangular 2 X42) by (repeat constructor).
  pose proof (Hsgd eq_refl Hrect) as Hs. cbv zeta in Hs.
  destruct Hs as (Es & _ & Hc & Hl).
  split; [exact Eg|]. split; [exact Es|].
  rewrite Hc. cbn [fmap option_fmap option_map]. rewrite Hl. reflexivity.
Defined.

Lemma shuffle_in_unison_witness :
  (exists g' rows' y',
     _shuffle X42 y3 shuffling = ((g', snd shuffling), Ok (rows', y')) /\
     length rows' = 3%nat /\ combine rows' y' ≡ₚ combine X42 y3) /\
  snd (_shuffle X4 [0; 1; 0; 1; 1] shuffling) = Raise IndexError.
Proof.
  split.
  - destruct (shuffle_in_unison (NumPyLaws0:=Q_laws) X42 y3 shuffling)
      as [Hle _].
    destruct (Hle ltac:(cbn; lia)) as (g' & rows' & y' & E & Hl & _ & Hp).
    exists g', rows', y'. auto.
  - destruct (shuffle_in_unison (NumPyLaws0:=Q_laws) X4 [0; 1; 0; 1; 1]
                shuffling) as [_ Hlt].
    exact (proj1 (Hlt ltac:(cbn; lia))).
Defined.

Lemma refit_forgets_witness :
  fit (Arr2 1 X4) y4 true (0%nat, snd fitted42)
    = fit (Arr2 1 X4) y4 true (0%nat, fresh GD 2 false true).
Proof.
  apply refit_forgets; vm_compute; reflexivity.
Defined.

Lemma fit_continues_witness :
  let s := (0%nat, fresh GD 2 false true) in
  let s1 := fst (fit (Arr2 2 X42) y42 true s) in
  let T := train (gd_step (1 # 100)%Q 2) false 4 0%nat X42 y42
                 [0; 0; 0]%Q [] in
  snd (fit (Arr2 2 X42) y42 false s1) = Ok tt /\
  w_ (snd (fst (fit (Arr2 2 X42) y42 false s1))) = Some (snd (fst T)) /\
  cost_ (snd (fst (fit (Arr2 2 X42) y42 false s1)))
    = Some (drop 2 (snd T)).
Proof.
  apply (fit_continues (NumPyLaws0:=Q_laws) 2 X42 y42 true
           (0%nat, fresh GD 2 false true) [0; 0; 0]%Q).
  - discriminate.
  - reflexivity.
  - reflexivity.
  - repeat constructor.
  - reflexivity.
  - reflexivity.
  - reflexivity.
Defined.

Lemma fit_errors_witness :
  snd (fit (Arr2 1 Xconst) y4 true (0%nat, fresh NormalEquation 5 false true))
    = Raise LinAlgError /\
  closed_form (G:=nat) 1 Xconst y4 = None.
Proof.
  assert (E : snd (fit (Arr2 1 Xconst) y4 true
                       (0%nat, fresh NormalEquation 5 false true))
              = Raise LinAlgError) by (vm_compute; reflexivity).
  split; [exact E|].
  destruct (fit_errors _ _ _ _ _ E) as (_ & _ & Hb).
  cbn in Hb. destruct Hb as [[_ Hcf]|[Habs _]]; [exact Hcf|discriminate].
Defined.

Lemma fit_random_draws_witness :
  fst (fst (fit (Arr2 2 X42) y42 true (3%nat, fresh SGD 2 false false)))
    = 6%nat /\
  fst (fst (fit (Arr2 2 X42) y42 true (3%nat, fresh SGD 2 false true)))
    = 3%nat.
Proof.
  split.
  - rewrite (fit_random_draws (Arr2 2 X42) y42 true
               (3%nat, fresh SGD 2 false false) eq_refl).
    reflexivity.
  - rewrite (fit_random_draws (Arr2 2 X42) y42 true
               (3%nat, fresh SGD 2 false true) eq_refl).
    reflexivity.
Defined.
